(** * RTP capability negotiation (mediasoup/ortc.go)

    A shallow embedding of the ORTC helpers of the mediasoup Go port:
    the codec matcher, the router capability builder, the producer
    mapping builder, the consumable parameters deriver, the feasibility
    check and the two consumer parameter reducers, followed by the
    properties established about them.

    Conventions of the embedding.
    - Go [int] fields are [Z]; no arithmetic is performed on them, so no
      wrap-around has to be written out.  Slice indices are [nat].
    - A Go function with results [(v, err)] returns the pair
      [(v, option error)]: the value is returned as it stands when the
      function leaves, also on the error paths.  A function that can
      panic (nil dereference, index out of range) returns an [option] of
      that pair, [None] being the panic.
    - A pointer to a parameter block is an [option]; the block is held by
      value.  A nil slice and an empty slice are told apart only for
      [RtcpFeedback], the one slice the code tests against nil.
    - The struct declarations live outside ortc.go; the records below
      list the fields ortc.go reads or writes.  Projections share one
      name space, so the fields of the smaller structs carry a prefix. *)

From Stdlib Require Import ZArith String Ascii List Bool Lia.
From stdpp Require Import base option list gmap.
Import ListNotations.
Local Open Scope string_scope.
Local Open Scope Z_scope.
Local Open Scope list_scope.
Set Warnings "-register-all".

(** ** Strings *)

Definition lower_ascii (c : ascii) : ascii :=
  let n := N_of_ascii c in
  if ((65 <=? n) && (n <=? 90))%N then ascii_of_N (n + 32) else c.

(** [strings.ToLower] on the bytes of the string: the letters A-Z are
    lowered, every other byte is kept.  Go lowers the upper-case letters
    outside ASCII as well; mime types are ASCII. *)
Fixpoint ToLower (s : string) : string :=
  match s with
  | EmptyString => EmptyString
  | String c r => String (lower_ascii c) (ToLower r)
  end.

(** [strings.HasPrefix s p]: [s] starts with the bytes of [p]. *)
Fixpoint HasPrefix (s p : string) : bool :=
  match p with
  | EmptyString => true
  | String a p' =>
    match s with
    | EmptyString => false
    | String b s' => Ascii.eqb a b && HasPrefix s' p'
    end
  end.

(** [strings.HasSuffix s suffix]:
    [len(s) >= len(suffix) && s[len(s)-len(suffix):] == suffix]. *)
Definition HasSuffix (s suffix : string) : bool :=
  (String.length suffix <=? String.length s)%nat &&
  String.eqb
    (String.substring (String.length s - String.length suffix)
                      (String.length suffix) s)
    suffix.

(** [strings.Split(s, "/")[0]]: the part of [s] before its first slash. *)
Fixpoint SplitSlashHead (s : string) : string :=
  match s with
  | EmptyString => EmptyString
  | String c r => if Ascii.eqb c "/"%char then EmptyString
                  else String c (SplitSlashHead r)
  end.

(** The test used all over the file:
    [strings.HasSuffix(strings.ToLower(mimeType), "/rtx")]. *)
Definition isRtxLower (mimeType : string) : bool :=
  HasSuffix (ToLower mimeType) "/rtx".

(** ** Errors *)

Inductive fmt_arg : Type :=
| ArgS (s : string)
| ArgD (d : Z).

(** [NewTypeError], [NewUnsupportedError] and [errors.New]; a formatted
    message is kept as its format string and its arguments. *)
Inductive error : Type :=
| TypeError (format : string) (args : list fmt_arg)
| UnsupportedError (format : string) (args : list fmt_arg)
| PlainError (msg : string).

Definition isUnsupportedError (e : option error) : bool :=
  match e with Some (UnsupportedError _ _) => true | _ => false end.

Definition isTypeError (e : option error) : bool :=
  match e with Some (TypeError _ _) => true | _ => false end.

(** ** Data model *)

Record RtcpFeedback : Type := mkRtcpFeedback {
  Type_ : string;
  Parameter_ : string
}.

Record RtpH264Parameter : Type := mkRtpH264Parameter {
  PacketizationMode : Z;
  ProfileLevelId : string
}.

(** [RtpCodecParameter] embeds [h264.RtpH264Parameter]. *)
Record RtpCodecParameter : Type := mkRtpCodecParameter {
  H264 : RtpH264Parameter;
  Apt : Z
}.

(** One struct serves capability codecs and parameter codecs: it has
    both [PreferredPayloadType] and [PayloadType]. *)
Record RtpCodecCapability : Type := mkRtpCodecCapability {
  Kind : string;
  MimeType : string;
  PreferredPayloadType : Z;
  PayloadType : Z;
  ClockRate : Z;
  Channels : Z;
  RtcpFeedbacks : option (list RtcpFeedback);
  Parameters : option RtpCodecParameter
}.

Record RtpHeaderExtension : Type := mkRtpHeaderExtension {
  ExtKind : string;
  Uri : string;
  Id : Z;
  PreferredId : Z
}.

Inductive RtpEncoding : Type :=
  mkRtpEncoding (ssrc : Z) (rid : string) (codecPayloadType : Z)
                (rtx : option RtpEncoding).

Definition Ssrc (e : RtpEncoding) : Z :=
  match e with mkRtpEncoding s _ _ _ => s end.
Definition Rid (e : RtpEncoding) : string :=
  match e with mkRtpEncoding _ r _ _ => r end.
Definition CodecPayloadType (e : RtpEncoding) : Z :=
  match e with mkRtpEncoding _ _ c _ => c end.
Definition Rtx (e : RtpEncoding) : option RtpEncoding :=
  match e with mkRtpEncoding _ _ _ x => x end.

Record RtcpConfiguation : Type := mkRtcpConfiguation {
  Cname : string;
  ReducedSize : bool;
  Mux : option bool
}.

Record RtpCapabilities : Type := mkRtpCapabilities {
  CapCodecs : list RtpCodecCapability;
  CapHeaderExtensions : list RtpHeaderExtension;
  FecMechanisms : list string
}.

Record RtpParameters : Type := mkRtpParameters {
  Codecs : list RtpCodecCapability;
  HeaderExtensions : list RtpHeaderExtension;
  Encodings : list RtpEncoding;
  Rtcp : RtcpConfiguation
}.

Record RtpMappingCodec : Type := mkRtpMappingCodec {
  MapPayloadType : Z;
  MappedPayloadType : Z
}.

Record RtpMappingHeaderExt : Type := mkRtpMappingHeaderExt {
  MapId : Z;
  MappedId : Z
}.

Record RtpMappingEncoding : Type := mkRtpMappingEncoding {
  MapRid : string;
  MapSsrc : Z;
  MappedSsrc : Z
}.

Record RtpMappingParameters : Type := mkRtpMappingParameters {
  MapCodecs : list RtpMappingCodec;
  MapHeaderExtensions : list RtpMappingHeaderExt;
  MapEncodings : list RtpMappingEncoding
}.

(** Zero values. *)
Definition zeroH264 : RtpH264Parameter := mkRtpH264Parameter 0 "".
Definition zeroParameter : RtpCodecParameter := mkRtpCodecParameter zeroH264 0.
Definition zeroCodec : RtpCodecCapability :=
  mkRtpCodecCapability "" "" 0 0 0 0 None None.
Definition zeroRtcp : RtcpConfiguation := mkRtcpConfiguation "" false None.
Definition zeroCapabilities : RtpCapabilities := mkRtpCapabilities [] [] [].
Definition zeroParameters : RtpParameters := mkRtpParameters [] [] [] zeroRtcp.
Definition zeroMapping : RtpMappingParameters := mkRtpMappingParameters [] [] [].

(** Field updates. *)
Definition setKind (c : RtpCodecCapability) (k : string) :=
  mkRtpCodecCapability k (MimeType c) (PreferredPayloadType c) (PayloadType c)
    (ClockRate c) (Channels c) (RtcpFeedbacks c) (Parameters c).
Definition setChannels (c : RtpCodecCapability) (n : Z) :=
  mkRtpCodecCapability (Kind c) (MimeType c) (PreferredPayloadType c)
    (PayloadType c) (ClockRate c) n (RtcpFeedbacks c) (Parameters c).
Definition setPreferredPayloadType (c : RtpCodecCapability) (pt : Z) :=
  mkRtpCodecCapability (Kind c) (MimeType c) pt (PayloadType c)
    (ClockRate c) (Channels c) (RtcpFeedbacks c) (Parameters c).
Definition setRtcpFeedbacks (c : RtpCodecCapability)
    (fb : option (list RtcpFeedback)) :=
  mkRtpCodecCapability (Kind c) (MimeType c) (PreferredPayloadType c)
    (PayloadType c) (ClockRate c) (Channels c) fb (Parameters c).
Definition setParameters (c : RtpCodecCapability)
    (p : option RtpCodecParameter) :=
  mkRtpCodecCapability (Kind c) (MimeType c) (PreferredPayloadType c)
    (PayloadType c) (ClockRate c) (Channels c) (RtcpFeedbacks c) p.
Definition setProfileLevelId (p : RtpCodecParameter) (s : string) :=
  mkRtpCodecParameter (mkRtpH264Parameter (PacketizationMode (H264 p)) s)
                      (Apt p).

(** The elements a [range] over a possibly nil slice visits. *)
Definition elems {A} (s : option (list A)) : list A := default [] s.

(** ** Constants *)

Definition DYNAMIC_PAYLOAD_TYPES : list Z := [
  100; 101; 102; 103; 104; 105; 106; 107; 108; 109; 110; 111; 112; 113; 114; 115;
  116; 117; 118; 119; 120; 121; 122; 123; 124; 125; 126; 127; 96; 97; 98; 99; 77;
  78; 79; 80; 81; 82; 83; 84; 85; 86; 87; 88; 89; 90; 91; 92; 93; 94; 95; 35; 36;
  37; 38; 39; 40; 41; 42; 43; 44; 45; 46; 47; 48; 49; 50; 51; 52; 53; 54; 55; 56;
  57; 58; 59; 60; 61; 62; 63; 64; 65; 66; 67; 68; 69; 70; 71 ].

Definition codecMatchNormal : Z := 0.
Definition codecMatchStrict : Z := 1.
Definition codecMatchModify : Z := 16.
Definition codecMatchStrictAndModify : Z :=
  Z.lor codecMatchStrict codecMatchModify.

(** ** Validation *)

Definition checkCodecCapability (codec : RtpCodecCapability)
  : RtpCodecCapability * option error :=
  if (String.length (MimeType codec) =? 0)%nat || (ClockRate codec =? 0)
  then (codec, Some (TypeError "invalid RTCRtpCodecCapability" []))
  else if (String.length (Kind codec) =? 0)%nat
       then (setKind codec (ToLower (SplitSlashHead (MimeType codec))), None)
       else (codec, None).

Definition checkCodecParameters (codec : RtpCodecCapability) : option error :=
  if (String.length (MimeType codec) =? 0)%nat || (ClockRate codec =? 0)
  then Some (TypeError "invalid RTCRtpCodecParameter{s" [])
  else None.

Definition matchHeaderExtensions (aExt bExt : RtpHeaderExtension) : bool :=
  if (0 <? String.length (ExtKind aExt))%nat &&
     (0 <? String.length (ExtKind bExt))%nat &&
     negb (String.eqb (ExtKind aExt) (ExtKind bExt))
  then false
  else String.eqb (Uri aExt) (Uri bExt).

(** ** The matcher *)

Section Matcher.

(** [h264.GenerateProfileLevelIdForAnswer], an external package: [None]
    stands for its error result. *)
Variable GenerateProfileLevelIdForAnswer :
  RtpH264Parameter -> RtpH264Parameter -> option string.

(** [matchedCodecs] receives [aCodec] by pointer and may write the
    negotiated profile-level-id into it: the codec is passed back. *)
Definition matchedCodecs (aCodec bCodec : RtpCodecCapability) (mode : Z)
  : bool * RtpCodecCapability :=
  let aMimeType := ToLower (MimeType aCodec) in
  let bMimeType := ToLower (MimeType bCodec) in
  if negb (String.eqb aMimeType bMimeType) then (false, aCodec)
  else if negb (ClockRate aCodec =? ClockRate bCodec) then (false, aCodec)
  else if HasPrefix aMimeType "audio/" &&
          (0 <? Channels aCodec) && (0 <? Channels bCodec) &&
          negb (Channels aCodec =? Channels bCodec)
  then (false, aCodec)
  else if String.eqb aMimeType "video/h264" then
    let aParameters := default zeroParameter (Parameters aCodec) in
    let bParameters := default zeroParameter (Parameters bCodec) in
    if negb (PacketizationMode (H264 aParameters) =?
             PacketizationMode (H264 bParameters))
    then (false, aCodec)
    else if 0 <? Z.land mode codecMatchStrict then
      match GenerateProfileLevelIdForAnswer (H264 aParameters)
                                            (H264 bParameters) with
      | None => (false, aCodec)
      | Some selectedProfileLevelId =>
          if 0 <? Z.land mode codecMatchModify
          then (true, setParameters aCodec
                        (Some (setProfileLevelId aParameters
                                                 selectedProfileLevelId)))
          else (true, aCodec)
      end
    else (true, aCodec)
  else (true, aCodec).

(** First match in the order of [bCodecs]; the zero codec and [false]
    when there is none. *)
Fixpoint selectMatchedCodecs (aCodec : RtpCodecCapability)
    (bCodecs : list RtpCodecCapability) (mode : Z)
  : RtpCodecCapability * bool * RtpCodecCapability :=
  match bCodecs with
  | [] => (zeroCodec, false, aCodec)
  | bCodec :: rest =>
      let '(matched, aCodec') := matchedCodecs aCodec bCodec mode in
      if matched then (bCodec, true, aCodec')
      else selectMatchedCodecs aCodec rest mode
  end.

End Matcher.

(** ** The operations *)

Definition appendCodecs (caps : RtpCapabilities)
    (cs : list RtpCodecCapability) : RtpCapabilities :=
  mkRtpCapabilities (CapCodecs caps ++ cs) (CapHeaderExtensions caps)
                    (FecMechanisms caps).

(** [mergo.Merge(dst, src, mergo.WithOverride)] on a parameter block:
    every field of [src] that is not the zero value replaces the field of
    [dst]. *)
Definition mergeParameters (dst src : RtpCodecParameter) : RtpCodecParameter :=
  mkRtpCodecParameter
    (mkRtpH264Parameter
       (if PacketizationMode (H264 src) =? 0
        then PacketizationMode (H264 dst) else PacketizationMode (H264 src))
       (if String.eqb (ProfileLevelId (H264 src)) ""
        then ProfileLevelId (H264 dst) else ProfileLevelId (H264 src)))
    (if Apt src =? 0 then Apt dst else Apt src).

Definition allocationError : error :=
  PlainError "cannot allocate more dynamic codec payload types".

Definition rtxCodecFor (codec : RtpCodecCapability) (pt : Z)
  : RtpCodecCapability :=
  mkRtpCodecCapability (Kind codec) (Kind codec ++ "/rtx")%string pt 0
    (ClockRate codec) 0 (Some [])
    (Some (mkRtpCodecParameter zeroH264 (PreferredPayloadType codec))).

Section Ortc.

Variable GenerateProfileLevelIdForAnswer :
  RtpH264Parameter -> RtpH264Parameter -> option string.

(** The value of [GetSupportedRtpCapabilities()], a table that is
    declared outside ortc.go. *)
Variable supportedRtpCapabilities : RtpCapabilities.

(** [generateRandomNumber()]: the [n]-th draw of the process is
    [randomSource n]; the functions that draw thread the count. *)
Variable randomSource : nat -> Z.

(** The order in which [range] visits the entries of a Go map, which
    the language leaves open: the entries come back rearranged. *)
Variable rangeOrder :
  list (nat * RtpCodecCapability) -> list (nat * RtpCodecCapability).

Abbreviation selectMatched :=
  (selectMatchedCodecs GenerateProfileLevelIdForAnswer).

Definition generateRandomNumber (n : nat) : Z * nat := (randomSource n, S n).

(** *** GenerateRouterRtpCapabilities *)

(** The channel, parameter and feedback normalisation of the matched
    supported codec.  The merge writes through the parameter pointer
    of the supported entry; the block is held by value here. *)
Definition normalizeCodec (codec mediaCodec : RtpCodecCapability)
  : RtpCodecCapability :=
  let codec :=
    if negb (String.eqb (Kind codec) "audio") then setChannels codec 0
    else if Channels codec =? 0 then setChannels codec 1
    else codec in
  let dst := default zeroParameter (Parameters codec) in
  let codec :=
    match Parameters mediaCodec with
    | Some src => setParameters codec (Some (mergeParameters dst src))
    | None => setParameters codec (Some dst)
    end in
  match RtcpFeedbacks codec with
  | None => setRtcpFeedbacks codec (Some [])
  | Some _ => codec
  end.

(** One turn of the loop over [mediaCodecs]: the codecs appended to
    [caps.Codecs] during the turn, the error that ends the call if
    any, and the pool cursor after the turn. *)
Definition generateStep (mediaCodec : RtpCodecCapability)
    (dynamicPayloadTypeIdx : nat)
  : list RtpCodecCapability * option error * nat :=
  let '(mediaCodec, err) := checkCodecCapability mediaCodec in
  match err with
  | Some e => ([], Some e, dynamicPayloadTypeIdx)
  | None =>
    let '(codec, matched, mediaCodec) :=
      selectMatched mediaCodec (CapCodecs supportedRtpCapabilities)
                    codecMatchNormal in
    if negb matched then
      ([], Some (UnsupportedError "media codec not supported [mimeType:%s]"
                                  [ArgS (MimeType mediaCodec)]),
       dynamicPayloadTypeIdx)
    else
      let codec := normalizeCodec codec mediaCodec in
      let assigned :=
        if PreferredPayloadType codec =? 0 then
          match DYNAMIC_PAYLOAD_TYPES !! dynamicPayloadTypeIdx with
          | None => None
          | Some pt => Some (setPreferredPayloadType codec pt,
                             S dynamicPayloadTypeIdx)
          end
        else Some (codec, dynamicPayloadTypeIdx) in
      match assigned with
      | None => ([], Some allocationError, dynamicPayloadTypeIdx)
      | Some (codec, idx) =>
        if String.eqb (Kind codec) "video" then
          match DYNAMIC_PAYLOAD_TYPES !! idx with
          | None => ([codec], Some allocationError, idx)
          | Some pt => ([codec; rtxCodecFor codec pt], None, S idx)
          end
        else ([codec], None, idx)
      end
  end.

Fixpoint generateLoop (mediaCodecs : list RtpCodecCapability)
    (caps : RtpCapabilities) (dynamicPayloadTypeIdx : nat)
  : RtpCapabilities * option error :=
  match mediaCodecs with
  | [] => (caps, None)
  | mediaCodec :: rest =>
    let '(emitted, err, idx) :=
      generateStep mediaCodec dynamicPayloadTypeIdx in
    let caps := appendCodecs caps emitted in
    match err with
    | Some e => (caps, Some e)
    | None => generateLoop rest caps idx
    end
  end.

Definition GenerateRouterRtpCapabilities
    (mediaCodecs : list RtpCodecCapability)
  : RtpCapabilities * option error :=
  if (length mediaCodecs =? 0)%nat
  then (zeroCapabilities, Some (TypeError "mediaCodecs cannot be empty" []))
  else
    generateLoop mediaCodecs
      (mkRtpCapabilities []
         (CapHeaderExtensions supportedRtpCapabilities)
         (FecMechanisms supportedRtpCapabilities))
      0%nat.

(** *** GetProducerRtpParametersMapping *)

(** [codecToCapCodec] is keyed by the address [&params.Codecs[i]]: the
    key is the index [i]. *)

Definition unsupportedCodec (codec : RtpCodecCapability) : error :=
  UnsupportedError "unsupported codec [mimeType:%s, payloadType:%d]"
    [ArgS (MimeType codec); ArgD (PreferredPayloadType codec)].

(** First loop, from index [i] on.  [err] is the named result on entry
    of the turn; [checkCodecParameters] overwrites it in every turn,
    and the unmatched branch sets it and goes on.  The results are the
    codecs as the loop leaves them (a match in modify mode writes
    through [codec.Parameters] when that pointer is not nil), the map,
    the named result, and whether the function returned. *)
Fixpoint mappingMediaLoop (capCodecs : list RtpCodecCapability) (i : nat)
    (codecs : list RtpCodecCapability)
    (codecToCapCodec : gmap nat RtpCodecCapability) (err : option error)
  : list RtpCodecCapability * gmap nat RtpCodecCapability *
    option error * bool :=
  match codecs with
  | [] => ([], codecToCapCodec, err, false)
  | codec :: rest =>
    match checkCodecParameters codec with
    | Some e => (codec :: rest, codecToCapCodec, Some e, true)
    | None =>
      if isRtxLower (MimeType codec) then
        let '(rest', m, err', returned) :=
          mappingMediaLoop capCodecs (S i) rest codecToCapCodec None in
        (codec :: rest', m, err', returned)
      else
        let '(matchedCapCodec, matched, codec') :=
          selectMatched codec capCodecs codecMatchStrictAndModify in
        let err := if matched then None
                   else Some (unsupportedCodec codec') in
        let stored := match Parameters codec with
                      | Some _ => codec'
                      | None => codec
                      end in
        let '(rest', m, err', returned) :=
          mappingMediaLoop capCodecs (S i) rest
            (<[i := matchedCapCodec]> codecToCapCodec) err in
        (stored :: rest', m, err', returned)
    end
  end.

(** Index of the first codec whose payload type is [apt]. *)
Fixpoint findPayloadType (apt : Z) (i : nat)
    (codecs : list RtpCodecCapability) : option nat :=
  match codecs with
  | [] => None
  | mediaCodec :: rest =>
    if PayloadType mediaCodec =? apt then Some i
    else findPayloadType apt (S i) rest
  end.

(** First capability RTX codec whose [apt] is [pt]; the outer [None]
    is the nil dereference of [capCodec.Parameters]. *)
Fixpoint findCapRtxCodec (pt : Z) (capCodecs : list RtpCodecCapability)
  : option (option RtpCodecCapability) :=
  match capCodecs with
  | [] => Some None
  | capCodec :: rest =>
    if negb (isRtxLower (MimeType capCodec)) then findCapRtxCodec pt rest
    else match Parameters capCodec with
         | None => None
         | Some p => if Apt p =? pt then Some (Some capCodec)
                     else findCapRtxCodec pt rest
         end
  end.

(** Second loop, over the codecs from index [i] on; [all] is the whole
    of [params.Codecs]. *)
Fixpoint mappingRtxLoop (capCodecs all : list RtpCodecCapability) (i : nat)
    (codecs : list RtpCodecCapability)
    (codecToCapCodec : gmap nat RtpCodecCapability) (err : option error)
  : option (gmap nat RtpCodecCapability * option error * bool) :=
  match codecs with
  | [] => Some (codecToCapCodec, err, false)
  | codec :: rest =>
    if negb (isRtxLower (MimeType codec))
    then mappingRtxLoop capCodecs all (S i) rest codecToCapCodec err
    else
      match Parameters codec with
      | None =>
        Some (codecToCapCodec,
              Some (TypeError "missing parameters in RTX codec" []), true)
      | Some p =>
        match findPayloadType (Apt p) 0 all with
        | None =>
          Some (codecToCapCodec,
                Some (TypeError "missing media codec found for RTX PT %d"
                                [ArgD (PayloadType codec)]), true)
        | Some associatedMediaCodec =>
          let capMediaCodec :=
            default zeroCodec (codecToCapCodec !! associatedMediaCodec) in
          match findCapRtxCodec (PreferredPayloadType capMediaCodec)
                                capCodecs with
          | None => None
          | Some None =>
            Some (codecToCapCodec,
                  Some (UnsupportedError
                          "no RTX codec for capability codec PT %d"
                          [ArgD (PreferredPayloadType capMediaCodec)]),
                  true)
          | Some (Some associatedCapRtxCodec) =>
            mappingRtxLoop capCodecs all (S i) rest
              (<[i := associatedCapRtxCodec]> codecToCapCodec) err
          end
        end
      end
  end.

(** The codec entries, in the order the map is ranged over. *)
Definition mappingCodecs (all : list RtpCodecCapability)
    (codecToCapCodec : gmap nat RtpCodecCapability)
  : list RtpMappingCodec :=
  map (fun '(i, capCodec) =>
         mkRtpMappingCodec (PayloadType (default zeroCodec (all !! i)))
                           (PreferredPayloadType capCodec))
      (rangeOrder (map_to_list codecToCapCodec)).

(** The format string of the error has double quotes around its first
    verb; they are left out of the literal here. *)
Fixpoint mappingHeaderExtensions (capExts exts : list RtpHeaderExtension)
    (acc : list RtpMappingHeaderExt)
  : list RtpMappingHeaderExt * option error :=
  match exts with
  | [] => (acc, None)
  | ext :: rest =>
    match List.find (matchHeaderExtensions ext) capExts with
    | None =>
      (acc, Some (UnsupportedError
                    "unsupported header extensions [uri:%s, id:%d]"
                    [ArgS (Uri ext); ArgD (Id ext)]))
    | Some matchedCapExt =>
      mappingHeaderExtensions capExts rest
        (acc ++ [mkRtpMappingHeaderExt (Id ext)
                                        (PreferredId matchedCapExt)])%list
    end
  end.

Fixpoint mappingEncodings (encodings : list RtpEncoding) (n : nat)
  : list RtpMappingEncoding * nat :=
  match encodings with
  | [] => ([], n)
  | encoding :: rest =>
    let '(mappedSsrc, n) := generateRandomNumber n in
    let '(more, n) := mappingEncodings rest n in
    (mkRtpMappingEncoding (Rid encoding) (Ssrc encoding) mappedSsrc :: more,
     n)
  end.

(** The results are the producer parameters as the call leaves them,
    the mapping, the error and the count of random draws. *)
Definition GetProducerRtpParametersMapping (params : RtpParameters)
    (caps : RtpCapabilities) (n : nat)
  : option (RtpParameters * RtpMappingParameters * option error * nat) :=
  let '(codecs, codecToCapCodec, err, returned) :=
    mappingMediaLoop (CapCodecs caps) 0 (Codecs params) ∅ None in
  let params := mkRtpParameters codecs (HeaderExtensions params)
                                (Encodings params) (Rtcp params) in
  if returned then Some (params, zeroMapping, err, n)
  else
    match mappingRtxLoop (CapCodecs caps) codecs 0 codecs
                         codecToCapCodec err with
    | None => None
    | Some (codecToCapCodec, err, returned) =>
      if returned then Some (params, zeroMapping, err, n)
      else
        let mapCodecs := mappingCodecs codecs codecToCapCodec in
        match mappingHeaderExtensions (CapHeaderExtensions caps)
                                      (HeaderExtensions params) [] with
        | (exts, Some e) =>
          Some (params, mkRtpMappingParameters mapCodecs exts [], Some e, n)
        | (exts, None) =>
          let '(encodings, n) := mappingEncodings (Encodings params) n in
          Some (params, mkRtpMappingParameters mapCodecs exts encodings,
                err, n)
        end
    end.

(** *** GetConsumableRtpParameters *)

Definition mappedPayloadTypeOf (rtpMapping : RtpMappingParameters)
    (codec : RtpCodecCapability) : Z :=
  match List.find (fun entry => MapPayloadType entry =? PayloadType codec)
                  (MapCodecs rtpMapping) with
  | Some entry => MappedPayloadType entry
  | None => 0
  end.

Definition capCodecAt (caps : RtpCapabilities) (pt : Z)
  : RtpCodecCapability :=
  default zeroCodec
    (List.find (fun capCodec => PreferredPayloadType capCodec =? pt)
               (CapCodecs caps)).

Definition consumableCodecOf (matchedCapCodec codec : RtpCodecCapability)
  : RtpCodecCapability :=
  mkRtpCodecCapability "" (MimeType matchedCapCodec) 0
    (PreferredPayloadType matchedCapCodec) (ClockRate matchedCapCodec)
    (Channels matchedCapCodec) (RtcpFeedbacks matchedCapCodec)
    (Parameters codec).

Definition consumableRtxCodecOf (capRtxCodec : RtpCodecCapability)
  : RtpCodecCapability :=
  mkRtpCodecCapability "" (MimeType capRtxCodec) 0
    (PreferredPayloadType capRtxCodec) (ClockRate capRtxCodec)
    (Channels capRtxCodec) (RtcpFeedbacks capRtxCodec)
    (Parameters capRtxCodec).

(** The loop over [params.Codecs]; [acc] is [consumableParams.Codecs].
    The outer [None] is the nil dereference of the parameters of a
    capability RTX codec. *)
Fixpoint consumableCodecsLoop (caps : RtpCapabilities)
    (rtpMapping : RtpMappingParameters)
    (codecs acc : list RtpCodecCapability)
  : option (list RtpCodecCapability * option error) :=
  match codecs with
  | [] => Some (acc, None)
  | codec :: rest =>
    match checkCodecParameters codec with
    | Some e => Some (acc, Some e)
    | None =>
      if isRtxLower (MimeType codec)
      then consumableCodecsLoop caps rtpMapping rest acc
      else
        let consumableCodecPt := mappedPayloadTypeOf rtpMapping codec in
        let matchedCapCodec := capCodecAt caps consumableCodecPt in
        let consumableCodec := consumableCodecOf matchedCapCodec codec in
        let acc := (acc ++ [consumableCodec])%list in
        match findCapRtxCodec (PayloadType consumableCodec)
                              (CapCodecs caps) with
        | None => None
        | Some None => consumableCodecsLoop caps rtpMapping rest acc
        | Some (Some consumableCapRtxCodec) =>
          consumableCodecsLoop caps rtpMapping rest
            (acc ++ [consumableRtxCodecOf consumableCapRtxCodec])%list
        end
    end
  end.

Definition consumableHeaderExtensions (kind : string)
    (capExts : list RtpHeaderExtension) : list RtpHeaderExtension :=
  map (fun capExt => mkRtpHeaderExtension "" (Uri capExt)
                                          (PreferredId capExt) 0)
    (List.filter
       (fun capExt =>
          negb (negb (String.eqb (ExtKind capExt) kind) ||
                String.eqb (Uri capExt)
                  "urn:ietf:params:rtp-hdrext:sdes:mid" ||
                String.eqb (Uri capExt)
                  "urn:ietf:params:rtp-hdrext:sdes:rtp-stream-id" ||
                String.eqb (Uri capExt)
                  "urn:ietf:params:rtp-hdrext:sdes:repaired-rtp-stream-id"))
       capExts).

(** [None] is the index out of range of [rtpMapping.Encodings[i]]. *)
Fixpoint consumableEncodings (encodings : list RtpEncoding)
    (mapEncodings : list RtpMappingEncoding) (i : nat)
  : option (list RtpEncoding) :=
  match encodings with
  | [] => Some []
  | _ :: rest =>
    match mapEncodings !! i with
    | None => None
    | Some entry =>
      match consumableEncodings rest mapEncodings (S i) with
      | None => None
      | Some more => Some (mkRtpEncoding (MappedSsrc entry) "" 0 None :: more)
      end
    end
  end.

Definition GetConsumableRtpParameters (kind : string)
    (params : RtpParameters) (caps : RtpCapabilities)
    (rtpMapping : RtpMappingParameters)
  : option (RtpParameters * option error) :=
  match consumableCodecsLoop caps rtpMapping (Codecs params) [] with
  | None => None
  | Some (codecs, Some e) =>
    Some (mkRtpParameters codecs [] [] zeroRtcp, Some e)
  | Some (codecs, None) =>
    match consumableEncodings (Encodings params)
                              (MapEncodings rtpMapping) 0 with
    | None => None
    | Some encodings =>
      Some (mkRtpParameters codecs
              (consumableHeaderExtensions kind (CapHeaderExtensions caps))
              encodings
              (mkRtcpConfiguation (Cname (Rtcp params)) true (Some true)),
            None)
    end
  end.

(** *** CanConsume *)

(** The validated copies of the capability codecs, or [None] when one
    of them is refused. *)
Fixpoint checkedCapCodecs (capCodecs : list RtpCodecCapability)
  : option (list RtpCodecCapability) :=
  match capCodecs with
  | [] => Some []
  | capCodec :: rest =>
    match checkCodecCapability capCodec with
    | (_, Some _) => None
    | (capCodec, None) =>
      match checkedCapCodecs rest with
      | None => None
      | Some more => Some (capCodec :: more)
      end
    end
  end.

Fixpoint matchingCodecsOf (codecs capCodecs : list RtpCodecCapability)
  : list RtpCodecCapability :=
  match codecs with
  | [] => []
  | codec :: rest =>
    let '(matchedCodec, matched, _) :=
      selectMatched codec capCodecs codecMatchStrict in
    if matched then matchedCodec :: matchingCodecsOf rest capCodecs
    else matchingCodecsOf rest capCodecs
  end.

Definition CanConsume (consumableParams : RtpParameters)
    (caps : RtpCapabilities) : bool :=
  match checkedCapCodecs (CapCodecs caps) with
  | None => false
  | Some capCodecs =>
    match matchingCodecsOf (Codecs consumableParams) capCodecs with
    | [] => false
    | first :: _ => if HasSuffix (MimeType first) "/rtx" then false else true
    end
  end.

(** *** GetConsumerRtpParameters *)

Fixpoint firstCapabilityError (capCodecs : list RtpCodecCapability)
  : option error :=
  match capCodecs with
  | [] => None
  | capCodec :: rest =>
    match snd (checkCodecCapability capCodec) with
    | Some e => Some e
    | None => firstCapabilityError rest
    end
  end.

(** The loop over the copied consumable codecs: the codecs appended to
    [consumerParams.Codecs], and [rtxSupported]. *)
Fixpoint consumerCodecsLoop (codecs capCodecs : list RtpCodecCapability)
    (rtxSupported : bool) : list RtpCodecCapability * bool :=
  match codecs with
  | [] => ([], rtxSupported)
  | codec :: rest =>
    let '(matchedCapCodec, matched, codec) :=
      selectMatched codec capCodecs codecMatchStrict in
    if negb matched then consumerCodecsLoop rest capCodecs rtxSupported
    else
      let codec := setRtcpFeedbacks codec (RtcpFeedbacks matchedCapCodec) in
      let rtxSupported :=
        if negb rtxSupported && HasSuffix (MimeType codec) "/rtx"
        then true else rtxSupported in
      let '(more, rtxSupported) :=
        consumerCodecsLoop rest capCodecs rtxSupported in
      (codec :: more, rtxSupported)
  end.

Definition consumerHeaderExtensions (exts capExts : list RtpHeaderExtension)
  : list RtpHeaderExtension :=
  List.filter
    (fun ext => existsb (fun capExt => PreferredId capExt =? Id ext) capExts)
    exts.

Definition GetConsumerRtpParameters (consumableParams : RtpParameters)
    (caps : RtpCapabilities) (n : nat)
  : RtpParameters * option error * nat :=
  match firstCapabilityError (CapCodecs caps) with
  | Some e => (zeroParameters, Some e, n)
  | None =>
    let '(codecs, rtxSupported) :=
      consumerCodecsLoop (Codecs consumableParams) (CapCodecs caps) false in
    let rtxFirst := match codecs with
                    | [] => true
                    | first :: _ => HasSuffix (MimeType first) "/rtx"
                    end in
    if rtxFirst then
      (mkRtpParameters codecs [] [] zeroRtcp,
       Some (UnsupportedError "no compatible media codecs" []), n)
    else
      let exts := consumerHeaderExtensions
                    (HeaderExtensions consumableParams)
                    (CapHeaderExtensions caps) in
      let '(ssrc, n) := generateRandomNumber n in
      let '(rtx, n) :=
        if rtxSupported
        then let '(rtxSsrc, n) := generateRandomNumber n in
             (Some (mkRtpEncoding rtxSsrc "" 0 None), n)
        else (None, n) in
      (mkRtpParameters codecs exts [mkRtpEncoding ssrc "" 0 rtx]
                       (Rtcp consumableParams),
       None, n)
  end.

(** *** GetPipeConsumerRtpParameters *)

Definition pipeFeedback (fb : RtcpFeedback) : bool :=
  (String.eqb (Type_ fb) "nack" && String.eqb (Parameter_ fb) "pli") ||
  (String.eqb (Type_ fb) "ccm" && String.eqb (Parameter_ fb) "fir").

(** [rtcpFeedback] starts as the nil slice and is appended to. *)
Definition pipeRtcpFeedback (fbs : option (list RtcpFeedback))
  : option (list RtcpFeedback) :=
  match List.filter pipeFeedback (elems fbs) with
  | [] => None
  | kept => Some kept
  end.

Fixpoint pipeCodecs (codecs : list RtpCodecCapability)
  : list RtpCodecCapability :=
  match codecs with
  | [] => []
  | codec :: rest =>
    if isRtxLower (MimeType codec) then pipeCodecs rest
    else setRtcpFeedbacks codec (pipeRtcpFeedback (RtcpFeedbacks codec))
         :: pipeCodecs rest
  end.

Definition clearRtx (encoding : RtpEncoding) : RtpEncoding :=
  mkRtpEncoding (Ssrc encoding) (Rid encoding) (CodecPayloadType encoding)
                None.

Definition GetPipeConsumerRtpParameters (consumableParams : RtpParameters)
  : RtpParameters :=
  mkRtpParameters
    (pipeCodecs (Codecs consumableParams))
    (List.filter
       (fun ext =>
          negb (String.eqb (Uri ext)
                  "http://www.webrtc.org/experiments/rtp-hdrext/abs-send-time"))
       (HeaderExtensions consumableParams))
    (map clearRtx (Encodings consumableParams))
    (Rtcp consumableParams).

End Ortc.

(** ** Decidable equality of the records *)

#[global] Instance RtcpFeedback_eq_dec : EqDecision RtcpFeedback.
Proof. solve_decision. Defined.
#[global] Instance RtpH264Parameter_eq_dec : EqDecision RtpH264Parameter.
Proof. solve_decision. Defined.
#[global] Instance RtpCodecParameter_eq_dec : EqDecision RtpCodecParameter.
Proof. solve_decision. Defined.
#[global] Instance RtpCodecCapability_eq_dec : EqDecision RtpCodecCapability.
Proof. solve_decision. Defined.

(** ** Data of the examples *)

(** Modelled from the spec: the supported-codec table is declared outside
    ortc.go.  The examples use a table with the two entries of the spec's
    scenarios A and B, audio/opus and video/VP8, neither of which has a
    preferred payload type. *)
Definition exampleSupported : RtpCapabilities :=
  mkRtpCapabilities
    [ mkRtpCodecCapability "audio" "audio/opus" 0 0 48000 2
        (Some [mkRtcpFeedback "transport-cc" ""]) None;
      mkRtpCodecCapability "video" "video/VP8" 0 0 90000 0
        (Some [mkRtcpFeedback "nack" ""; mkRtcpFeedback "nack" "pli";
               mkRtcpFeedback "ccm" "fir"; mkRtcpFeedback "goog-remb" ""])
        None ]
    [ mkRtpHeaderExtension "audio" "urn:ietf:params:rtp-hdrext:sdes:mid" 0 1;
      mkRtpHeaderExtension "video" "urn:ietf:params:rtp-hdrext:sdes:mid" 0 1;
      mkRtpHeaderExtension "video"
        "http://www.webrtc.org/experiments/rtp-hdrext/abs-send-time" 0 4 ]
    [].

(** A stand-in for the external profile-level-id negotiation: equal ids
    negotiate to themselves, different ids fail. *)
Definition exampleNegotiate (a b : RtpH264Parameter) : option string :=
  if String.eqb (ProfileLevelId a) (ProfileLevelId b)
  then Some (ProfileLevelId a) else None.

Definition exampleRandom (n : nat) : Z := 1000 + Z.of_nat n.

Definition exampleOrder (l : list (nat * RtpCodecCapability)) := l.

Definition opusConfigured : RtpCodecCapability :=
  mkRtpCodecCapability "" "audio/opus" 0 0 48000 2 None None.

Definition vp8Configured : RtpCodecCapability :=
  mkRtpCodecCapability "" "video/VP8" 0 0 90000 0 None None.

(** A producer that sends VP8 with payload type 96 and opus with payload
    type 111, in this order, and one encoding. *)
Definition exampleProducer : RtpParameters :=
  mkRtpParameters
    [ mkRtpCodecCapability "" "video/VP8" 0 96 90000 0 None None;
      mkRtpCodecCapability "" "audio/opus" 0 111 48000 2 None None ]
    []
    [ mkRtpEncoding 1111 "" 0 None ]
    (mkRtcpConfiguation "producer-cname" false None).

(** The same producer with the VP8 codec alone. *)
Definition exampleVideoProducer : RtpParameters :=
  mkRtpParameters
    [ mkRtpCodecCapability "" "video/VP8" 0 96 90000 0 None None ]
    []
    [ mkRtpEncoding 1111 "" 0 None ]
    (mkRtcpConfiguation "producer-cname" false None).

(** Consumable parameters whose only codec is an RTX codec, and a
    capability set that spells the same mime type in upper case. *)
Definition exampleRtxConsumable : RtpParameters :=
  mkRtpParameters
    [ mkRtpCodecCapability "" "video/rtx" 0 101 90000 0 (Some [])
        (Some (mkRtpCodecParameter zeroH264 100)) ]
    [] [ mkRtpEncoding 2222 "" 0 None ]
    (mkRtcpConfiguation "producer-cname" true (Some true)).

Definition exampleUpperRtxCaps : RtpCapabilities :=
  mkRtpCapabilities
    [ mkRtpCodecCapability "video" "video/RTX" 101 0 90000 0 (Some [])
        (Some (mkRtpCodecParameter zeroH264 100)) ]
    [] [].

Definition exampleLowerRtxCaps : RtpCapabilities :=
  mkRtpCapabilities
    [ mkRtpCodecCapability "video" "video/rtx" 101 0 90000 0 (Some [])
        (Some (mkRtpCodecParameter zeroH264 100)) ]
    [] [].

(** Consumable parameters of the spec's scenario D. *)
Definition examplePipeConsumable : RtpParameters :=
  mkRtpParameters
    [ mkRtpCodecCapability "" "video/VP8" 0 100 90000 0
        (Some [mkRtcpFeedback "nack" ""; mkRtcpFeedback "nack" "pli";
               mkRtcpFeedback "ccm" "fir"; mkRtcpFeedback "goog-remb" ""])
        None;
      mkRtpCodecCapability "" "video/rtx" 0 101 90000 0 (Some [])
        (Some (mkRtpCodecParameter zeroH264 100)) ]
    [ mkRtpHeaderExtension ""
        "http://www.webrtc.org/experiments/rtp-hdrext/abs-send-time" 4 0;
      mkRtpHeaderExtension "" "urn:3gpp:video-orientation" 11 0 ]
    [ mkRtpEncoding 2222 "r0" 100 (Some (mkRtpEncoding 2223 "" 0 None)) ]
    (mkRtcpConfiguation "producer-cname" true (Some true)).

(** The capabilities of a router configured with VP8 and opus, and a
    mapping of [exampleProducer] onto them. *)
Definition exampleRouterCaps : RtpCapabilities :=
  fst (GenerateRouterRtpCapabilities exampleNegotiate exampleSupported
         [vp8Configured; opusConfigured]).

Definition exampleMapping : RtpMappingParameters :=
  mkRtpMappingParameters
    [ mkRtpMappingCodec 96 100; mkRtpMappingCodec 111 102 ]
    []
    [ mkRtpMappingEncoding "" 1111 1000 ].

(** The capabilities of a router configured with opus alone. *)
Definition exampleAudioRouterCaps : RtpCapabilities :=
  fst (GenerateRouterRtpCapabilities exampleNegotiate exampleSupported
         [opusConfigured]).

Definition vp8Produced : RtpCodecCapability :=
  mkRtpCodecCapability "" "video/VP8" 0 96 90000 0 None None.

(** ** Notions used by the statements *)

(** [rtx] is what the capability builder synthesizes next to [codec]:
    mime type [<kind>/rtx], the clock rate of [codec], an empty feedback
    list, and [apt] set to the payload type assigned to [codec]. *)
Definition rtxSiblingOf (codec rtx : RtpCodecCapability) : Prop :=
  MimeType rtx = (Kind codec ++ "/rtx")%string /\
  ClockRate rtx = ClockRate codec /\
  RtcpFeedbacks rtx = Some [] /\
  Apt <$> Parameters rtx = Some (PreferredPayloadType codec).

(** What one configured codec contributes to the capability list: the
    codec, and its RTX sibling when there is one. *)
Definition groupCodecs (g : RtpCodecCapability * option RtpCodecCapability)
  : list RtpCodecCapability := g.1 :: option_list g.2.

Definition videoGroup (g : RtpCodecCapability * option RtpCodecCapability)
  : Prop :=
  if String.eqb (Kind g.1) "video"
  then exists r, g.2 = Some r /\ rtxSiblingOf g.1 r
  else g.2 = None.

(** The supported codec a configured codec is resolved to, when the
    configured codec is valid and the table has a match for it. *)
Definition supportedMatch
    (negotiate : RtpH264Parameter -> RtpH264Parameter -> option string)
    (supported : RtpCapabilities) (mediaCodec : RtpCodecCapability)
  : option RtpCodecCapability :=
  match checkCodecCapability mediaCodec with
  | (_, Some _) => None
  | (m, None) =>
    let '(codec, matched, _) :=
      selectMatchedCodecs negotiate m (CapCodecs supported)
                          codecMatchNormal in
    if matched then Some codec else None
  end.

(** Pool entries a configured codec uses: one for the codec when its
    supported entry has no preferred payload type, one for its RTX
    sibling when its kind is video. *)
Definition ownDemand (s : RtpCodecCapability) : nat :=
  if PreferredPayloadType s =? 0 then 1%nat else 0%nat.

Definition rtxDemand (s : RtpCodecCapability) : nat :=
  if String.eqb (Kind s) "video" then 1%nat else 0%nat.

Definition dynamicDemand (s : RtpCodecCapability) : nat :=
  (ownDemand s + rtxDemand s)%nat.

Definition totalDemand
    (negotiate : RtpH264Parameter -> RtpH264Parameter -> option string)
    (supported : RtpCapabilities) (mediaCodecs : list RtpCodecCapability)
  : nat :=
  sum_list (map (fun m => from_option dynamicDemand 0%nat
                            (supportedMatch negotiate supported m))
                mediaCodecs).

(** Number of capability codecs the configured codecs give rise to. *)
Definition emittedCount
    (negotiate : RtpH264Parameter -> RtpH264Parameter -> option string)
    (supported : RtpCapabilities) (mediaCodecs : list RtpCodecCapability)
  : nat :=
  sum_list (map (fun m => from_option (fun s => S (rtxDemand s)) 0%nat
                            (supportedMatch negotiate supported m))
                mediaCodecs).

(** The consumable codec [c] emitted for the producer codec [codec]: it
    keeps the parameters of [codec] and takes mime type, clock rate,
    channels and feedback from the first capability codec whose preferred
    payload type is the payload type the mapping gives for [codec]. *)
Definition takesFromCapability (caps : RtpCapabilities)
    (rtpMapping : RtpMappingParameters)
    (codec c : RtpCodecCapability) : Prop :=
  Parameters c = Parameters codec /\
  forall entry capCodec,
    List.find (fun e => MapPayloadType e =? PayloadType codec)
              (MapCodecs rtpMapping) = Some entry ->
    List.find (fun cc => PreferredPayloadType cc =? MappedPayloadType entry)
              (CapCodecs caps) = Some capCodec ->
    MimeType c = MimeType capCodec /\
    ClockRate c = ClockRate capCodec /\
    Channels c = Channels capCodec /\
    RtcpFeedbacks c = RtcpFeedbacks capCodec.

Definition notRtx (codec : RtpCodecCapability) : bool :=
  negb (isRtxLower (MimeType codec)).

(** A consumable codec with the feedback of the capability codec it
    matched. *)
Definition relabel (k : RtpCodecCapability * RtpCodecCapability)
  : RtpCodecCapability :=
  setRtcpFeedbacks k.1 (RtcpFeedbacks k.2).

(** Whether the capability list has a Strict match for [codec]. *)
Definition hasStrictMatch
    (negotiate : RtpH264Parameter -> RtpH264Parameter -> option string)
    (capCodecs : list RtpCodecCapability) (codec : RtpCodecCapability)
  : bool :=
  snd (fst (selectMatchedCodecs negotiate codec capCodecs codecMatchStrict)).

Definition nackPli : RtcpFeedback := mkRtcpFeedback "nack" "pli".
Definition ccmFir : RtcpFeedback := mkRtcpFeedback "ccm" "fir".
Definition absSendTime : string :=
  "http://www.webrtc.org/experiments/rtp-hdrext/abs-send-time".

(** The shape the capability builder gives every codec it emits. *)
Definition normalizedCapability (c : RtpCodecCapability) : Prop :=
  PreferredPayloadType c <> 0 /\
  RtcpFeedbacks c <> None /\
  Parameters c <> None /\
  (if String.eqb (Kind c) "audio" then Channels c <> 0 else Channels c = 0).

(** Every capability RTX codec has a parameter block. *)
Definition rtxHaveParameters (capCodecs : list RtpCodecCapability) : Prop :=
  Forall (fun c => isRtxLower (MimeType c) = true -> Parameters c <> None)
         capCodecs.

(** The suffix /rtx of the mime type, if there is one, is in lower case:
    the test on the mime type as it is and the test on the lowered mime
    type agree. *)
Definition rtxSpelledLower (c : RtpCodecCapability) : Prop :=
  HasSuffix (MimeType c) "/rtx" = isRtxLower (MimeType c).

Definition rtxSuffix (c : RtpCodecCapability) : bool :=
  HasSuffix (MimeType c) "/rtx".

(** What one producer codec contributes to the consumable codec list:
    a codec alone, or a codec followed by an RTX codec taken from a
    capability RTX codec whose [apt] is the payload type of the codec. *)
Definition rtxBlock (caps : RtpCapabilities)
    (block : list RtpCodecCapability) : Prop :=
  exists c,
    block = [c] \/
    exists r capRtx,
      block = [c; r] /\
      capRtx ∈ CapCodecs caps /\
      MimeType r = MimeType capRtx /\
      PayloadType r = PreferredPayloadType capRtx /\
      isRtxLower (MimeType r) = true /\
      Apt <$> Parameters r = Some (PayloadType c).

Definition validParameters (codec : RtpCodecCapability) : Prop :=
  checkCodecParameters codec = None.

Definition consumableEncodingOf (entry : RtpMappingEncoding) : RtpEncoding :=
  mkRtpEncoding (MappedSsrc entry) "" 0 None.

(** * Properties *)

(** ** Strings *)

Lemma eqb_false_iff (a b : string) : String.eqb a b = false <-> a <> b.
Proof.
  destruct (String.eqb_spec a b); split; congruence.
Qed.

Lemma audio_not_h264 (s : string) :
  HasPrefix s "audio/" = true -> String.eqb s "video/h264" = false.
Proof.
  destruct s as [|c s]; cbn [HasPrefix]; intros H; [discriminate H|].
  apply andb_true_iff in H as [H _]. apply Ascii.eqb_eq in H. subst c.
  reflexivity.
Qed.

(** ** The matcher *)

Section MatcherFacts.

Variable negotiate : RtpH264Parameter -> RtpH264Parameter -> option string.

(** A codec is handed back unchanged unless the mode has the modify
    bit. *)
Lemma matchedCodecs_no_modify a b mode :
  Z.land mode codecMatchModify = 0 ->
  snd (matchedCodecs negotiate a b mode) = a.
Proof.
  intros Hm. unfold matchedCodecs. rewrite Hm.
  change (0 <? 0) with false. cbv iota.
  repeat (match goal with
          | |- context [if ?c then _ else _] => destruct c
          | |- context [match negotiate ?x ?y with _ => _ end] =>
              destruct (negotiate x y)
          end; simpl; try reflexivity).
Qed.

End MatcherFacts.

(** C4. For every pair of codecs and every match mode, [matchedCodecs]
    reports a match only if the lower-cased mime types are equal and the
    clock rates are equal; if the mime type is an audio one, two channel
    counts that are both given (positive, the test of the code) are
    equal; if the lower-cased mime type is video/h264, the two
    packetization modes are equal, an absent parameter block counting as
    mode 0.  A channel count of zero on either side is a wildcard: an
    audio pair with equal mime types and clock rates then matches. *)
Theorem matchedCodecs_rules
    (negotiate : RtpH264Parameter -> RtpH264Parameter -> option string)
    (a b : RtpCodecCapability) (mode : Z) :
  (fst (matchedCodecs negotiate a b mode) = true ->
     ToLower (MimeType a) = ToLower (MimeType b) /\
     ClockRate a = ClockRate b /\
     (HasPrefix (ToLower (MimeType a)) "audio/" = true ->
        0 < Channels a -> 0 < Channels b -> Channels a = Channels b) /\
     (ToLower (MimeType a) = "video/h264" ->
        PacketizationMode (H264 (default zeroParameter (Parameters a))) =
        PacketizationMode (H264 (default zeroParameter (Parameters b))))) /\
  (HasPrefix (ToLower (MimeType a)) "audio/" = true ->
     Channels a = 0 \/ Channels b = 0 ->
     ToLower (MimeType a) = ToLower (MimeType b) ->
     ClockRate a = ClockRate b ->
     fst (matchedCodecs negotiate a b mode) = true).
Proof.
  split.
  - unfold matchedCodecs.
    destruct (String.eqb_spec (ToLower (MimeType a)) (ToLower (MimeType b)))
      as [Hmime|?]; simpl; [|discriminate].
    destruct (Z.eqb_spec (ClockRate a) (ClockRate b)) as [Hclock|?];
      simpl; [|discriminate].
    destruct (HasPrefix (ToLower (MimeType a)) "audio/" &&
              (0 <? Channels a) && (0 <? Channels b) &&
              negb (Channels a =? Channels b)) eqn:Hch; simpl; [discriminate|].
    intros Hmatch. split; [exact Hmime|]. split; [exact Hclock|]. split.
    + intros Haudio Ha Hb. rewrite Haudio in Hch.
      apply Z.ltb_lt in Ha, Hb. rewrite Ha, Hb in Hch. simpl in Hch.
      apply negb_false_iff, Z.eqb_eq in Hch. exact Hch.
    + intros Hh264. rewrite Hh264 in Hmatch. simpl in Hmatch.
      destruct (Z.eqb_spec
                  (PacketizationMode (H264 (default zeroParameter (Parameters a))))
                  (PacketizationMode (H264 (default zeroParameter (Parameters b)))))
        as [Hpm|?]; [exact Hpm|discriminate].
  - intros Haudio Hzero Hmime Hclock. unfold matchedCodecs.
    rewrite Hmime, String.eqb_refl. simpl.
    rewrite Hclock, Z.eqb_refl. simpl.
    rewrite <- Hmime.
    assert (Hwild : (0 <? Channels a) && (0 <? Channels b) = false).
    { destruct Hzero as [-> | ->]; simpl; [reflexivity|].
      apply andb_false_r. }
    rewrite <- andb_assoc, <- andb_assoc, (andb_assoc (0 <? _)), Hwild.
    rewrite andb_false_l, andb_false_r.
    rewrite (audio_not_h264 _ Haudio). reflexivity.
Qed.

(** ** The router capability builder *)

Section RouterFacts.

Variable negotiate : RtpH264Parameter -> RtpH264Parameter -> option string.
Variable supported : RtpCapabilities.

Lemma normalizeCodec_Kind codec mediaCodec :
  Kind (normalizeCodec codec mediaCodec) = Kind codec.
Proof.
  unfold normalizeCodec.
  repeat (match goal with
          | |- context [if ?c then _ else _] => destruct c
          | |- context [match ?o with Some _ => _ | None => _ end] =>
              destruct o
          end; simpl); reflexivity.
Qed.

Lemma normalizeCodec_PreferredPayloadType codec mediaCodec :
  PreferredPayloadType (normalizeCodec codec mediaCodec) =
  PreferredPayloadType codec.
Proof.
  unfold normalizeCodec.
  repeat (match goal with
          | |- context [if ?c then _ else _] => destruct c
          | |- context [match ?o with Some _ => _ | None => _ end] =>
              destruct o
          end; simpl); reflexivity.
Qed.

Lemma rtxCodecFor_sibling codec pt : rtxSiblingOf codec (rtxCodecFor codec pt).
Proof. repeat split. Qed.

(** A turn of the loop that does not fail appends one group. *)
Lemma generateStep_group mediaCodec idx emitted idx' :
  generateStep negotiate supported mediaCodec idx = (emitted, None, idx') ->
  exists g, emitted = groupCodecs g /\ videoGroup g.
Proof.
  unfold generateStep.
  destruct (checkCodecCapability mediaCodec) as [m' [e|]]; [done|].
  destruct (selectMatchedCodecs negotiate m' (CapCodecs supported)
                                codecMatchNormal) as [[codec matched] m''].
  destruct matched; simpl; [|done].
  set (c := normalizeCodec codec m'').
  destruct (PreferredPayloadType c =? 0).
  - destruct (DYNAMIC_PAYLOAD_TYPES !! idx) as [pt|]; [|done].
    destruct (String.eqb (Kind (setPreferredPayloadType c pt)) "video")
      eqn:Hk.
    + destruct (DYNAMIC_PAYLOAD_TYPES !! S idx) as [pt'|]; [|done].
      intros [= <- _].
      exists (setPreferredPayloadType c pt,
              Some (rtxCodecFor (setPreferredPayloadType c pt) pt')).
      split; [reflexivity|]. unfold videoGroup. cbn [fst snd]. rewrite Hk.
      eexists; split; [reflexivity|apply rtxCodecFor_sibling].
    + intros [= <- _]. exists (setPreferredPayloadType c pt, None).
      split; [reflexivity|]. unfold videoGroup. cbn [fst snd].
      rewrite Hk. reflexivity.
  - destruct (String.eqb (Kind c) "video") eqn:Hk.
    + destruct (DYNAMIC_PAYLOAD_TYPES !! idx) as [pt'|]; [|done].
      intros [= <- _]. exists (c, Some (rtxCodecFor c pt')).
      split; [reflexivity|]. unfold videoGroup. cbn [fst snd]. rewrite Hk.
      eexists; split; [reflexivity|apply rtxCodecFor_sibling].
    + intros [= <- _]. exists (c, None).
      split; [reflexivity|]. unfold videoGroup. cbn [fst snd].
      rewrite Hk. reflexivity.
Qed.

Lemma generateLoop_groups mediaCodecs : forall caps idx caps',
  generateLoop negotiate supported mediaCodecs caps idx = (caps', None) ->
  exists groups,
    length groups = length mediaCodecs /\
    CapCodecs caps' = (CapCodecs caps ++ flat_map groupCodecs groups)%list /\
    Forall videoGroup groups.
Proof.
  induction mediaCodecs as [|m rest IH]; intros caps idx caps'; simpl.
  - intros [= <-]. exists []. simpl. rewrite app_nil_r. auto.
  - destruct (generateStep negotiate supported m idx)
      as [[emitted err] idx1] eqn:Hstep.
    destruct err as [e|]; [done|].
    intros Hloop. apply IH in Hloop as (groups & Hlen & Hcodecs & Hall).
    apply generateStep_group in Hstep as (g & -> & Hg).
    exists (g :: groups). simpl. split; [by rewrite Hlen|].
    split; [|by constructor].
    rewrite Hcodecs. simpl. by rewrite <- app_assoc.
Qed.

End RouterFacts.

(** C10. For the empty list of configured codecs the capability builder
    returns a type error together with the empty capability set, and a
    call that succeeds was given a list that is not empty. *)
Theorem GenerateRouterRtpCapabilities_empty
    (negotiate : RtpH264Parameter -> RtpH264Parameter -> option string)
    (supported : RtpCapabilities) :
  GenerateRouterRtpCapabilities negotiate supported [] =
    (zeroCapabilities, Some (TypeError "mediaCodecs cannot be empty" [])) /\
  forall mediaCodecs,
    snd (GenerateRouterRtpCapabilities negotiate supported mediaCodecs) = None ->
    mediaCodecs <> [].
Proof.
  split; [reflexivity|].
  intros mediaCodecs Hok ->. discriminate Hok.
Qed.

(** In a list of groups every codec of kind video that is not itself an
    RTX codec is the head of a group, and so is followed by its
    sibling. *)
Lemma videoGroups_followed
    (groups : list (RtpCodecCapability * option RtpCodecCapability)) :
  Forall videoGroup groups ->
  forall (i : nat) c,
    flat_map groupCodecs groups !! i = Some c ->
    Kind c = "video" -> notRtx c = true ->
    exists r,
      flat_map groupCodecs groups !! S i = Some r /\ rtxSiblingOf c r.
Proof.
  induction 1 as [|[m o] rest Hg Hrest IH]; intros i c Hi Hkind Hmedia;
    [done|].
  unfold videoGroup in Hg. cbn [fst snd] in Hg.
  cbn [flat_map groupCodecs fst snd] in *.
  destruct (String.eqb (Kind m) "video") eqn:Hk.
  - destruct Hg as (r & -> & Hsib). cbn [option_list app] in *.
    destruct i as [|[|i]].
    + injection Hi as <-. exists r. split; [reflexivity|exact Hsib].
    + injection Hi as <-. apply String.eqb_eq in Hk.
      destruct Hsib as (Hmime & _).
      unfold notRtx in Hmedia. rewrite Hmime, Hk in Hmedia. done.
    + exact (IH i c Hi Hkind Hmedia).
  - subst o. cbn [option_list app] in *.
    destruct i as [|i].
    + injection Hi as <-. apply String.eqb_neq in Hk. done.
    + exact (IH i c Hi Hkind Hmedia).
Qed.

(** C3. After a successful call the capability list is the concatenation
    of one group per configured codec, in order: a codec whose kind is
    not video stands alone, and a codec of kind video is immediately
    followed by its synthesized RTX sibling (mime type [<kind>/rtx], same
    clock rate, empty feedback list, [apt] equal to the payload type
    assigned to the video codec).  So every codec of kind video in the
    list, the RTX codecs set aside, is immediately followed by its
    sibling: the siblings are the only codecs of kind video with nothing
    synthesized after them. *)
Theorem router_video_codec_then_rtx
    (negotiate : RtpH264Parameter -> RtpH264Parameter -> option string)
    (supported : RtpCapabilities)
    (mediaCodecs : list RtpCodecCapability) (caps : RtpCapabilities) :
  GenerateRouterRtpCapabilities negotiate supported mediaCodecs = (caps, None) ->
  (exists groups : list (RtpCodecCapability * option RtpCodecCapability),
     length groups = length mediaCodecs /\
     CapCodecs caps = flat_map groupCodecs groups /\
     Forall videoGroup groups) /\
  forall (i : nat) c,
    CapCodecs caps !! i = Some c ->
    Kind c = "video" -> notRtx c = true ->
    exists r, CapCodecs caps !! S i = Some r /\ rtxSiblingOf c r.
Proof.
  unfold GenerateRouterRtpCapabilities.
  destruct (length mediaCodecs =? 0)%nat; [done|].
  intros H. apply generateLoop_groups in H as (groups & Hlen & Hcodecs & Hall).
  cbn [CapCodecs zeroCapabilities app] in Hcodecs.
  split; [by exists groups|].
  rewrite Hcodecs. by apply videoGroups_followed.
Qed.

Lemma router_video_codec_then_rtx_witness :
  let caps :=
    fst (GenerateRouterRtpCapabilities exampleNegotiate exampleSupported
           [vp8Configured]) in
  (exists groups : list (RtpCodecCapability * option RtpCodecCapability),
     length groups = length [vp8Configured] /\
     CapCodecs caps = flat_map groupCodecs groups /\
     Forall videoGroup groups) /\
  forall (i : nat) c,
    CapCodecs caps !! i = Some c ->
    Kind c = "video" -> notRtx c = true ->
    exists r, CapCodecs caps !! S i = Some r /\ rtxSiblingOf c r.
Proof.
  apply (router_video_codec_then_rtx exampleNegotiate exampleSupported).
  vm_compute. reflexivity.
Defined.

(** ** The pool of dynamic payload types *)

Lemma DYNAMIC_PAYLOAD_TYPES_length : length DYNAMIC_PAYLOAD_TYPES = 88%nat.
Proof. reflexivity. Qed.

Lemma pool_lookup_lt (i : nat) :
  (i < 88)%nat -> exists pt, DYNAMIC_PAYLOAD_TYPES !! i = Some pt.
Proof.
  intros Hi. apply lookup_lt_is_Some_2.
  rewrite DYNAMIC_PAYLOAD_TYPES_length. exact Hi.
Qed.

Lemma pool_lookup_ge (i : nat) :
  (88 <= i)%nat -> DYNAMIC_PAYLOAD_TYPES !! i = None.
Proof.
  intros Hi. apply lookup_ge_None_2.
  rewrite DYNAMIC_PAYLOAD_TYPES_length. exact Hi.
Qed.

Lemma pool_lookup_Some (i : nat) pt :
  DYNAMIC_PAYLOAD_TYPES !! i = Some pt -> (i < 88)%nat.
Proof.
  intros H. apply lookup_lt_Some in H.
  rewrite DYNAMIC_PAYLOAD_TYPES_length in H. exact H.
Qed.

Section PoolFacts.

Variable negotiate : RtpH264Parameter -> RtpH264Parameter -> option string.
Variable supported : RtpCapabilities.

Abbreviation step := (generateStep negotiate supported).
Abbreviation loop := (generateLoop negotiate supported).
Abbreviation matchOf := (supportedMatch negotiate supported).

(** What a turn that does not fail draws from the pool. *)
Lemma generateStep_draws m idx emitted idx' :
  step m idx = (emitted, None, idx') ->
  exists s c,
    matchOf m = Some s /\
    idx' = (idx + dynamicDemand s)%nat /\
    length emitted = S (rtxDemand s) /\
    emitted !! 0%nat = Some c /\
    (if PreferredPayloadType s =? 0
     then DYNAMIC_PAYLOAD_TYPES !! idx = Some (PreferredPayloadType c)
     else PreferredPayloadType c = PreferredPayloadType s) /\
    (String.eqb (Kind s) "video" = true ->
     exists r, emitted !! 1%nat = Some r /\
               DYNAMIC_PAYLOAD_TYPES !! (idx + ownDemand s)%nat =
                 Some (PreferredPayloadType r)).
Proof.
  unfold generateStep, supportedMatch, dynamicDemand, ownDemand, rtxDemand.
  destruct (checkCodecCapability m) as [m' [e|]]; [done|].
  destruct (selectMatchedCodecs negotiate m' (CapCodecs supported)
                                codecMatchNormal) as [[s matched] m''].
  destruct matched; simpl; [|done].
  rewrite normalizeCodec_PreferredPayloadType.
  destruct (PreferredPayloadType s =? 0) eqn:Hpt.
  - destruct (DYNAMIC_PAYLOAD_TYPES !! idx) as [pt|] eqn:Hidx; [|done].
    cbn [Kind setPreferredPayloadType]. rewrite normalizeCodec_Kind.
    destruct (String.eqb (Kind s) "video") eqn:Hk.
    + destruct (DYNAMIC_PAYLOAD_TYPES !! S idx) as [pt'|] eqn:Hidx';
        [|done].
      intros [= <- <-].
      exists s, (setPreferredPayloadType (normalizeCodec s m'') pt).
      rewrite Hpt, Hk.
      repeat split; [lia|].
      intros _. eexists. split; [reflexivity|].
      replace (idx + 1)%nat with (S idx) by lia. exact Hidx'.
    + intros [= <- <-].
      exists s, (setPreferredPayloadType (normalizeCodec s m'') pt).
      rewrite Hpt, Hk.
      repeat split; [lia|done].
  - rewrite normalizeCodec_Kind.
    destruct (String.eqb (Kind s) "video") eqn:Hk.
    + destruct (DYNAMIC_PAYLOAD_TYPES !! idx) as [pt'|] eqn:Hidx'; [|done].
      intros [= <- <-]. exists s, (normalizeCodec s m'').
      rewrite Hpt, Hk.
      repeat split; [lia|apply normalizeCodec_PreferredPayloadType|].
      intros _. eexists. split; [reflexivity|].
      replace (idx + 0)%nat with idx by lia. exact Hidx'.
    + intros [= <- <-]. exists s, (normalizeCodec s m'').
      rewrite Hpt, Hk.
      repeat split; [lia|apply normalizeCodec_PreferredPayloadType|done].
Qed.

(** A turn on a valid, supported codec fails exactly when the pool
    cannot serve it, and then with the allocation error.  The cursor
    never passes the end of the pool. *)
Lemma generateStep_outcome m idx s :
  (idx <= 88)%nat ->
  matchOf m = Some s ->
  exists emitted idx',
    step m idx =
      (emitted,
       if (idx + dynamicDemand s <=? 88)%nat then None
       else Some allocationError,
       idx').
Proof.
  intros Hcur.
  unfold generateStep, supportedMatch, dynamicDemand, ownDemand, rtxDemand.
  destruct (checkCodecCapability m) as [m' [e|]]; [done|].
  destruct (selectMatchedCodecs negotiate m' (CapCodecs supported)
                                codecMatchNormal) as [[s' matched] m''].
  destruct matched; simpl; [|done]. intros [= ->].
  rewrite normalizeCodec_PreferredPayloadType.
  destruct (PreferredPayloadType s =? 0) eqn:Hpt.
  - destruct (DYNAMIC_PAYLOAD_TYPES !! idx) as [pt|] eqn:Hidx.
    + apply pool_lookup_Some in Hidx.
      cbn [Kind setPreferredPayloadType]. rewrite normalizeCodec_Kind.
      destruct (String.eqb (Kind s) "video") eqn:Hk.
      * destruct (DYNAMIC_PAYLOAD_TYPES !! S idx) as [pt'|] eqn:Hidx'.
        -- apply pool_lookup_Some in Hidx'. do 2 eexists.
           destruct (Nat.leb_spec (idx + (1 + 1)) 88); [reflexivity|lia].
        -- do 2 eexists.
           destruct (Nat.leb_spec (idx + (1 + 1)) 88); [|reflexivity].
           destruct (pool_lookup_lt (S idx)) as [pt' Hpt'];
             [lia|congruence].
      * do 2 eexists.
        destruct (Nat.leb_spec (idx + (1 + 0)) 88); [reflexivity|lia].
    + do 2 eexists.
      destruct (Nat.leb_spec
                  (idx + (1 + (if String.eqb (Kind s) "video"
                               then 1 else 0))) 88) as [Hle|]; [|reflexivity].
      destruct (pool_lookup_lt idx) as [pt Hpt']; [lia|congruence].
  - rewrite normalizeCodec_Kind.
    destruct (String.eqb (Kind s) "video") eqn:Hk.
    + destruct (DYNAMIC_PAYLOAD_TYPES !! idx) as [pt'|] eqn:Hidx'.
      * apply pool_lookup_Some in Hidx'. do 2 eexists.
        destruct (Nat.leb_spec (idx + (0 + 1)) 88); [reflexivity|lia].
      * do 2 eexists.
        destruct (Nat.leb_spec (idx + (0 + 1)) 88); [|reflexivity].
        destruct (pool_lookup_lt idx) as [pt Hpt']; [lia|congruence].
    + do 2 eexists.
      destruct (Nat.leb_spec (idx + (0 + 0)) 88); [reflexivity|lia].
Qed.

(** A turn that fails has appended at most the codec itself. *)
Lemma generateStep_failure m idx emitted e idx' :
  step m idx = (emitted, Some e, idx') -> (length emitted <= 1)%nat.
Proof.
  unfold generateStep.
  destruct (checkCodecCapability m) as [m' [e'|]];
    [intros [= <- _ _]; simpl; lia|].
  destruct (selectMatchedCodecs negotiate m' (CapCodecs supported)
                                codecMatchNormal) as [[s matched] m''].
  destruct matched; simpl; [|intros [= <- _ _]; simpl; lia].
  repeat (match goal with
          | |- context [let (_, _) := ?p in _] => destruct p
          | |- context [if ?c then _ else _] => destruct c
          | |- context [match ?o with Some _ => _ | None => _ end] =>
              destruct o
          end; simpl; try (intros [= <- _ _]; simpl; lia)); done.
Qed.

End PoolFacts.

Lemma appendCodecs_nil caps : appendCodecs caps [] = caps.
Proof. destruct caps. unfold appendCodecs. simpl. by rewrite app_nil_r. Qed.

Lemma appendCodecs_app caps a b :
  appendCodecs (appendCodecs caps a) b = appendCodecs caps (a ++ b).
Proof. unfold appendCodecs. simpl. by rewrite app_assoc. Qed.

Section PoolLoop.

Variable negotiate : RtpH264Parameter -> RtpH264Parameter -> option string.
Variable supported : RtpCapabilities.

Abbreviation loop' := (generateLoop negotiate supported).
Abbreviation matchOf' := (supportedMatch negotiate supported).
Abbreviation demandOf := (totalDemand negotiate supported).
Abbreviation countOf := (emittedCount negotiate supported).

Lemma totalDemand_cons m s rest :
  matchOf' m = Some s ->
  demandOf (m :: rest) = (dynamicDemand s + demandOf rest)%nat.
Proof. intros H. unfold totalDemand. simpl. by rewrite H. Qed.

Lemma emittedCount_cons m s rest :
  matchOf' m = Some s ->
  countOf (m :: rest) = (S (rtxDemand s) + countOf rest)%nat.
Proof. intros H. unfold emittedCount. simpl. by rewrite H. Qed.

(** Outcome of the loop on valid, supported codecs. *)
Lemma generateLoop_outcome mediaCodecs : forall caps idx,
  (idx <= 88)%nat ->
  Forall (fun m => is_Some (matchOf' m)) mediaCodecs ->
  snd (loop' mediaCodecs caps idx) =
    if (idx + demandOf mediaCodecs <=? 88)%nat then None
    else Some allocationError.
Proof.
  induction mediaCodecs as [|m rest IH]; intros caps idx Hcur Hall.
  - simpl. unfold totalDemand. simpl.
    destruct (Nat.leb_spec (idx + 0) 88); [reflexivity|lia].
  - apply Forall_cons in Hall as [[s Hs] Hall].
    rewrite (totalDemand_cons _ _ _ Hs). simpl.
    destruct (generateStep_outcome negotiate supported m idx s Hcur Hs)
      as (emitted & idx' & Hstep).
    rewrite Hstep.
    destruct (Nat.leb_spec (idx + dynamicDemand s) 88) as [Hle|Hgt].
    + apply generateStep_draws in Hstep
        as (s' & c & Hs' & -> & _).
      rewrite Hs in Hs'. injection Hs' as <-.
      rewrite IH by (lia || assumption).
      by rewrite Nat.add_assoc.
    + simpl.
      destruct (Nat.leb_spec (idx + (dynamicDemand s + demandOf rest)) 88);
        [lia|reflexivity].
Qed.

(** A successful run over [pre ++ rest] reaches [rest] with the codecs
    of [pre] appended and the cursor advanced by the demand of
    [pre]. *)
Lemma generateLoop_split pre : forall rest caps idx caps',
  loop' (pre ++ rest) caps idx = (caps', None) ->
  exists emitted,
    length emitted = countOf pre /\
    loop' rest (appendCodecs caps emitted) (idx + demandOf pre)%nat =
      (caps', None).
Proof.
  induction pre as [|m pre IH]; intros rest caps idx caps' Hrun.
  - exists []. split; [reflexivity|].
    rewrite appendCodecs_nil. unfold totalDemand. simpl.
    by rewrite Nat.add_0_r.
  - simpl in Hrun.
    destruct (generateStep negotiate supported m idx)
      as [[emitted err] idx1] eqn:Hstep.
    destruct err as [e|]; [done|].
    apply generateStep_draws in Hstep
      as (s & c & Hs & -> & Hlen & _).
    apply IH in Hrun as (more & Hmore & Hrun).
    exists (emitted ++ more). split.
    + rewrite length_app, Hlen, Hmore.
      by rewrite (emittedCount_cons _ _ _ Hs).
    + rewrite <- appendCodecs_app, (totalDemand_cons _ _ _ Hs).
      by rewrite Nat.add_assoc.
Qed.

Lemma totalDemand_app pre post :
  demandOf (pre ++ post) = (demandOf pre + demandOf post)%nat.
Proof. unfold totalDemand. by rewrite map_app, sum_list_with_app. Qed.

(** While the pool serves the codecs of [pre], the loop goes through
    them whatever comes after. *)
Lemma generateLoop_prefix pre : forall caps idx,
  Forall (fun m => is_Some (matchOf' m)) pre ->
  (idx + demandOf pre <= 88)%nat ->
  exists emitted,
    length emitted = countOf pre /\
    forall rest,
      loop' (pre ++ rest) caps idx =
      loop' rest (appendCodecs caps emitted) (idx + demandOf pre)%nat.
Proof.
  induction pre as [|m pre IH]; intros caps idx Hall Hfit.
  - exists []. split; [reflexivity|]. intros rest.
    rewrite appendCodecs_nil. unfold totalDemand. simpl.
    by rewrite Nat.add_0_r.
  - apply Forall_cons in Hall as [[s Hs] Hall].
    rewrite (totalDemand_cons _ _ _ Hs) in Hfit.
    destruct (generateStep_outcome negotiate supported m idx s
                ltac:(lia) Hs) as (emitted & idx' & Hstep).
    destruct (Nat.leb_spec (idx + dynamicDemand s) 88) as [_|?]; [|lia].
    pose proof Hstep as Hdraws.
    apply generateStep_draws in Hdraws as (s' & c & Hs' & -> & Hlen & _).
    rewrite Hs in Hs'. injection Hs' as <-.
    destruct (IH (appendCodecs caps emitted) (idx + dynamicDemand s)%nat
                Hall ltac:(lia)) as (more & Hmore & Hrun).
    exists (emitted ++ more). split.
    + rewrite length_app, Hlen, Hmore.
      by rewrite (emittedCount_cons _ _ _ Hs).
    + intros rest. simpl. rewrite Hstep, Hrun, appendCodecs_app.
      by rewrite (totalDemand_cons _ _ _ Hs), Nat.add_assoc.
Qed.

End PoolLoop.

(** C2, with the size the pool has in the code. The pool holds 88
    numbers, in the order 100-127, 96-99, 77-95, 35-71.  On configured
    codecs that are all valid and supported the call succeeds when they
    need at most 88 pool entries and fails with the allocation error
    otherwise, at the first codec the pool cannot serve and with nothing
    appended after it; a successful call emits every codec and every
    sibling, and the codec configured after the codecs [pre] takes the
    pool entry
    whose index is the number of entries [pre] used when its supported
    entry has no preferred payload type (it keeps the preferred payload
    type otherwise), its RTX sibling taking the next entry. *)
Theorem dynamic_payload_types_from_pool
    (negotiate : RtpH264Parameter -> RtpH264Parameter -> option string)
    (supported : RtpCapabilities)
    (mediaCodecs : list RtpCodecCapability) :
  mediaCodecs <> [] ->
  Forall (fun m => is_Some (supportedMatch negotiate supported m))
         mediaCodecs ->
  DYNAMIC_PAYLOAD_TYPES =
    (seqZ 100 28 ++ seqZ 96 4 ++ seqZ 77 19 ++ seqZ 35 37)%list /\
  length DYNAMIC_PAYLOAD_TYPES = 88%nat /\
  snd (GenerateRouterRtpCapabilities negotiate supported mediaCodecs) =
    (if (totalDemand negotiate supported mediaCodecs <=? 88)%nat then None
     else Some allocationError) /\
  (forall pre m post,
     mediaCodecs = (pre ++ m :: post)%list ->
     (totalDemand negotiate supported pre <= 88)%nat ->
     (88 < totalDemand negotiate supported (pre ++ [m]))%nat ->
     let result :=
       GenerateRouterRtpCapabilities negotiate supported mediaCodecs in
     snd result = Some allocationError /\
     (emittedCount negotiate supported pre <= length (CapCodecs (fst result))
      <= S (emittedCount negotiate supported pre))%nat) /\
  forall caps,
    GenerateRouterRtpCapabilities negotiate supported mediaCodecs =
      (caps, None) ->
    length (CapCodecs caps) = emittedCount negotiate supported mediaCodecs /\
    forall pre m post s,
      mediaCodecs = (pre ++ m :: post)%list ->
      supportedMatch negotiate supported m = Some s ->
      exists c,
        CapCodecs caps !! emittedCount negotiate supported pre = Some c /\
        (if PreferredPayloadType s =? 0
         then DYNAMIC_PAYLOAD_TYPES !! totalDemand negotiate supported pre =
                Some (PreferredPayloadType c)
         else PreferredPayloadType c = PreferredPayloadType s) /\
        (String.eqb (Kind s) "video" = true ->
         exists r,
           CapCodecs caps !! S (emittedCount negotiate supported pre) =
             Some r /\
           DYNAMIC_PAYLOAD_TYPES !!
             (totalDemand negotiate supported pre + ownDemand s)%nat =
             Some (PreferredPayloadType r)).
Proof.
  intros Hne Hall.
  split; [reflexivity|]. split; [reflexivity|].
  unfold GenerateRouterRtpCapabilities.
  destruct mediaCodecs as [|m0 rest0]; [done|].
  change (length (m0 :: rest0) =? 0)%nat with false. cbv iota.
  set (caps0 := mkRtpCapabilities [] _ _).
  split; [|split].
  - rewrite generateLoop_outcome by (lia || assumption). reflexivity.
  - intros pre m post Hsplit Hfit Hover. rewrite Hsplit in Hall |- *.
    apply Forall_app in Hall as [Hpre Hrest].
    apply Forall_cons in Hrest as [[s Hs] _].
    rewrite totalDemand_app, (totalDemand_cons _ _ _ _ [] Hs) in Hover.
    unfold totalDemand at 2 in Hover. simpl in Hover.
    destruct (generateLoop_prefix negotiate supported pre caps0 0%nat
                Hpre ltac:(simpl; lia)) as (before & Hlen & Hrun).
    rewrite Hrun. simpl.
    destruct (generateStep_outcome negotiate supported m
                (totalDemand negotiate supported pre) s ltac:(lia) Hs)
      as (emitted & idx' & Hstep).
    destruct (Nat.leb_spec (totalDemand negotiate supported pre
                            + dynamicDemand s) 88) as [?|_]; [lia|].
    rewrite Hstep. simpl. split; [reflexivity|].
    apply generateStep_failure in Hstep.
    rewrite length_app, Hlen. lia.
  - intros caps Hrun. split.
    + rewrite <- (app_nil_r (m0 :: rest0)) in Hrun.
      apply generateLoop_split in Hrun as (emitted & Hlen & Hrun).
      simpl in Hrun. injection Hrun as <-. simpl. exact Hlen.
    + intros pre m post s Hsplit Hs. rewrite Hsplit in Hrun.
      apply generateLoop_split in Hrun as (before & Hlen & Hrun).
      simpl in Hrun.
      destruct (generateStep negotiate supported m
                  (totalDemand negotiate supported pre))
        as [[emitted err] idx1] eqn:Hstep.
      destruct err as [e|]; [done|].
      apply generateLoop_groups in Hrun as (groups & _ & Hcodecs & _).
      apply generateStep_draws in Hstep
        as (s' & c & Hs' & _ & _ & Hc & Hpt & Hrtx).
      rewrite Hs in Hs'. injection Hs' as <-.
      simpl in Hcodecs, Hpt, Hrtx.
      exists c. rewrite Hcodecs, <- Hlen. split.
      * rewrite lookup_app_l by
          (rewrite length_app; apply lookup_lt_Some in Hc; lia).
        rewrite lookup_app_r by lia.
        by replace (length before - length before)%nat with 0%nat by lia.
      * split; [exact Hpt|]. intros Hk.
        destruct (Hrtx Hk) as (r & Hr & Hdraw). exists r. split; [|exact Hdraw].
        rewrite lookup_app_l by
          (rewrite length_app; apply lookup_lt_Some in Hr; lia).
        rewrite lookup_app_r by lia.
        by replace (S (length before) - length before)%nat with 1%nat by lia.
Qed.

Lemma dynamic_payload_types_from_pool_witness :
  [vp8Configured; opusConfigured] <> [] /\
  snd (GenerateRouterRtpCapabilities exampleNegotiate exampleSupported
         [vp8Configured; opusConfigured]) =
    (if (totalDemand exampleNegotiate exampleSupported
           [vp8Configured; opusConfigured] <=? 88)%nat
     then None else Some allocationError).
Proof.
  split; [done|].
  destruct (dynamic_payload_types_from_pool exampleNegotiate exampleSupported
              [vp8Configured; opusConfigured]) as (_ & _ & H & _).
  - done.
  - repeat constructor; eexists; vm_compute; reflexivity.
  - exact H.
Defined.

(** The size of the claim as written, 74, is not the size of the pool:
    75 configured opus codecs, each of which needs a dynamic payload
    type, are all served, the last one from the 75th entry. *)
Lemma pool_serves_more_than_74 :
  length DYNAMIC_PAYLOAD_TYPES <> 74%nat /\
  exists caps c,
    GenerateRouterRtpCapabilities exampleNegotiate exampleSupported
      (replicate 75 opusConfigured) = (caps, None) /\
    length (CapCodecs caps) = 75%nat /\
    CapCodecs caps !! 74%nat = Some c /\
    PreferredPayloadType c = 58 /\
    DYNAMIC_PAYLOAD_TYPES !! 74%nat = Some 58.
Proof.
  split; [vm_compute; discriminate|].
  eexists _, _. split; [vm_compute; reflexivity|].
  repeat split.
Qed.

(** ** The consumable parameters *)

Lemma consumableCodecsLoop_blocks caps rtpMapping codecs : forall acc out,
  consumableCodecsLoop caps rtpMapping codecs acc = Some (out, None) ->
  exists blocks,
    out = acc ++ concat blocks /\
    Forall2 (fun codec block =>
               exists c rest, block = c :: rest /\
                              takesFromCapability caps rtpMapping codec c)
            (List.filter notRtx codecs) blocks.
Proof.
  induction codecs as [|codec rest IH]; intros acc out; simpl.
  - intros [= <-]. exists []. simpl. rewrite app_nil_r. auto.
  - destruct (checkCodecParameters codec); [done|].
    unfold notRtx at 1.
    destruct (isRtxLower (MimeType codec)); simpl; [apply IH|].
    set (c := consumableCodecOf _ codec).
    assert (Hc : takesFromCapability caps rtpMapping codec c).
    { split; [reflexivity|]. intros entry capCodec Hentry Hcap.
      subst c. unfold mappedPayloadTypeOf, capCodecAt.
      rewrite Hentry, Hcap. simpl. auto. }
    destruct (findCapRtxCodec (PreferredPayloadType _) (CapCodecs caps))
      as [[rtx|]|]; [| |done]; intros Hrun;
      apply IH in Hrun as (blocks & -> & Hall).
    + exists ([c; consumableRtxCodecOf rtx] :: blocks). split.
      * simpl. by rewrite <- !app_assoc.
      * constructor; [|exact Hall]. by exists c, [consumableRtxCodecOf rtx].
    + exists ([c] :: blocks). split.
      * simpl. by rewrite <- !app_assoc.
      * constructor; [|exact Hall]. by exists c, [].
Qed.

(** C6. After a successful call the consumable codec list is made of one
    block per producer codec that is not RTX, in order; the first codec
    of a block keeps the parameters of its producer codec and takes mime
    type, clock rate, channels and feedback from the capability codec
    found at the mapped payload type.  The RTCP configuration has the
    [cname] of the producer, [reducedSize] true and [mux] true. *)
Theorem consumable_codec_fields (kind : string) (params : RtpParameters)
    (caps : RtpCapabilities) (rtpMapping : RtpMappingParameters)
    (out : RtpParameters) :
  GetConsumableRtpParameters kind params caps rtpMapping = Some (out, None) ->
  (exists blocks,
     Codecs out = concat blocks /\
     Forall2 (fun codec block =>
                exists c rest, block = c :: rest /\
                               takesFromCapability caps rtpMapping codec c)
             (List.filter notRtx (Codecs params)) blocks) /\
  Rtcp out = mkRtcpConfiguation (Cname (Rtcp params)) true (Some true).
Proof.
  unfold GetConsumableRtpParameters.
  destruct (consumableCodecsLoop caps rtpMapping (Codecs params) [])
    as [[codecs [e|]]|] eqn:Hloop; [done| |done].
  destruct (consumableEncodings _ _ _) as [encodings|]; [|done].
  intros [= <-]. split; [|reflexivity].
  apply consumableCodecsLoop_blocks in Hloop as (blocks & -> & Hall).
  by exists blocks.
Qed.

Lemma consumable_codec_fields_witness :
  exists out,
    GetConsumableRtpParameters "video" exampleProducer exampleRouterCaps
      exampleMapping = Some (out, None) /\
    Rtcp out = mkRtcpConfiguation "producer-cname" true (Some true).
Proof.
  eexists. split; [vm_compute; reflexivity|].
  refine (proj2 (consumable_codec_fields "video" exampleProducer
                   exampleRouterCaps exampleMapping _ _)).
  vm_compute. reflexivity.
Defined.

(** ** The consumer parameters *)

Section ConsumerFacts.

Variable negotiate : RtpH264Parameter -> RtpH264Parameter -> option string.

Lemma selectMatchedCodecs_no_modify a bs mode :
  Z.land mode codecMatchModify = 0 ->
  snd (selectMatchedCodecs negotiate a bs mode) = a.
Proof.
  intros Hm. induction bs as [|b bs IH]; simpl; [reflexivity|].
  destruct (matchedCodecs negotiate a b mode) as [matched a'] eqn:Hab.
  destruct matched; [|exact IH]. simpl.
  pose proof (matchedCodecs_no_modify negotiate a b mode Hm) as H.
  by rewrite Hab in H.
Qed.

Lemma selectMatchedCodecs_matched a bs mode m a' :
  selectMatchedCodecs negotiate a bs mode = (m, true, a') ->
  m ∈ bs /\ fst (matchedCodecs negotiate a m mode) = true.
Proof.
  induction bs as [|b bs IH]; simpl; [done|].
  destruct (matchedCodecs negotiate a b mode) as [matched a''] eqn:Hab.
  destruct matched.
  - intros [= <- <-]. split; [left|]. by rewrite Hab.
  - intros H. apply IH in H as [Hin Hm]. split; [by right|exact Hm].
Qed.

Lemma consumerCodecsLoop_kept capCodecs codecs : forall rtxSupported,
  exists kept,
    fst (consumerCodecsLoop negotiate codecs capCodecs rtxSupported) =
      map relabel kept /\
    map fst kept = List.filter (hasStrictMatch negotiate capCodecs) codecs /\
    Forall (fun k => k.2 ∈ capCodecs /\
                     fst (matchedCodecs negotiate k.1 k.2 codecMatchStrict)
                       = true) kept.
Proof.
  induction codecs as [|codec rest IH]; intros rtxSupported; simpl.
  - by exists [].
  - unfold hasStrictMatch at 1.
    pose proof (selectMatchedCodecs_no_modify codec capCodecs
                  codecMatchStrict eq_refl) as Hsame.
    destruct (selectMatchedCodecs negotiate codec capCodecs codecMatchStrict)
      as [[m matched] codec'] eqn:Hsel.
    simpl in Hsame. subst codec'. destruct matched; simpl.
    + apply selectMatchedCodecs_matched in Hsel.
      match goal with
      | |- context [consumerCodecsLoop negotiate rest capCodecs ?b] =>
          destruct (IH b) as (kept & Hout & Hfst & Hall)
      end.
      destruct (consumerCodecsLoop negotiate rest capCodecs _)
        as [more rtx'].
      simpl in *. subst more.
      exists ((codec, m) :: kept). simpl. rewrite Hfst.
      split; [reflexivity|]. split; [reflexivity|]. by constructor.
    + apply IH.
Qed.

End ConsumerFacts.

(** C8. The codecs of the result are consumable codecs, in their order,
    each carrying the feedback of a capability codec it matches in Strict
    mode; nothing else is added.  When every capability codec is valid,
    the retained codecs are exactly the consumable codecs that have a
    Strict match: the others are left out, and the call fails only if no
    codec is retained or the first retained codec has a mime type that
    ends in /rtx. *)
Theorem consumer_codecs_conserved
    (negotiate : RtpH264Parameter -> RtpH264Parameter -> option string)
    (random : nat -> Z)
    (consumableParams : RtpParameters) (caps : RtpCapabilities) (n : nat) :
  let result :=
    GetConsumerRtpParameters negotiate random consumableParams caps n in
  exists kept : list (RtpCodecCapability * RtpCodecCapability),
    Codecs result.1.1 = map relabel kept /\
    map fst kept `sublist_of` Codecs consumableParams /\
    Forall (fun k => k.2 ∈ CapCodecs caps /\
                     fst (matchedCodecs negotiate k.1 k.2 codecMatchStrict)
                       = true) kept /\
    (firstCapabilityError (CapCodecs caps) = None ->
       map fst kept =
         List.filter (hasStrictMatch negotiate (CapCodecs caps))
                     (Codecs consumableParams) /\
       (result.1.2 = None <->
        exists first rest,
          Codecs result.1.1 = first :: rest /\
          HasSuffix (MimeType first) "/rtx" = false)).
Proof.
  unfold GetConsumerRtpParameters.
  destruct (firstCapabilityError (CapCodecs caps)) as [e|] eqn:Hcaps.
  - exists []. simpl. repeat split; [apply sublist_nil_l|constructor|done..].
  - destruct (consumerCodecsLoop_kept negotiate (CapCodecs caps)
                (Codecs consumableParams) false)
      as (kept & Hout & Hfst & Hall).
    destruct (consumerCodecsLoop negotiate (Codecs consumableParams)
                (CapCodecs caps) false) as [codecs rtxSupported].
    simpl in Hout. subst codecs. exists kept.
    assert (Hsub : map fst kept `sublist_of` Codecs consumableParams).
    { rewrite Hfst. clear. induction (Codecs consumableParams) as [|c l IH];
        simpl; [constructor|].
      destruct (hasStrictMatch _ _ c); by constructor. }
    destruct (map relabel kept) as [|first rest] eqn:Hmap.
    + simpl. repeat split; try done.
      intros (f & r & ? & _). done.
    + destruct (HasSuffix (MimeType first) "/rtx") eqn:Hrtx; simpl.
      * repeat split; try done.
        intros (f & r & [= <- <-] & Hf). congruence.
      * destruct rtxSupported; simpl;
          (repeat split; try done); intros _; by exists first, rest.
Qed.

(** ** The pipe consumer parameters *)

Lemma List_filter_decide {A} (f : A -> bool) (P : A -> Prop)
    `{!forall x, Decision (P x)} (l : list A) :
  (forall x, f x = true <-> P x) -> List.filter f l = filter P l.
Proof.
  intros Hf. induction l as [|x l IH]; [reflexivity|].
  simpl. rewrite filter_cons, IH.
  destruct (f x) eqn:Hx; destruct (decide (P x)) as [HP|HP];
    try reflexivity.
  - apply Hf in Hx. contradiction.
  - apply Hf in HP. congruence.
Qed.

Lemma pipeFeedback_spec fb :
  pipeFeedback fb = true <-> fb = nackPli \/ fb = ccmFir.
Proof.
  unfold pipeFeedback, nackPli, ccmFir. destruct fb as [t p]. simpl.
  rewrite orb_true_iff, !andb_true_iff, !String.eqb_eq.
  split.
  - intros [[-> ->]|[-> ->]]; auto.
  - intros [[= -> ->]|[= -> ->]]; auto.
Qed.

Lemma pipeRtcpFeedback_elems fbs :
  elems (pipeRtcpFeedback fbs) =
  filter (fun fb => fb = nackPli \/ fb = ccmFir) (elems fbs).
Proof.
  unfold pipeRtcpFeedback.
  rewrite <- (List_filter_decide pipeFeedback) by apply pipeFeedback_spec.
  by destruct (List.filter pipeFeedback (elems fbs)).
Qed.

Lemma pipeCodecs_spec codecs :
  Forall2 (fun cin cout =>
             cout = setRtcpFeedbacks cin (RtcpFeedbacks cout) /\
             elems (RtcpFeedbacks cout) =
               filter (fun fb => fb = nackPli \/ fb = ccmFir)
                      (elems (RtcpFeedbacks cin)))
          (filter (fun c => isRtxLower (MimeType c) = false) codecs)
          (pipeCodecs codecs).
Proof.
  induction codecs as [|codec rest IH]; simpl; [constructor|].
  rewrite filter_cons.
  destruct (isRtxLower (MimeType codec)) eqn:Hrtx.
  - rewrite decide_False by done. exact IH.
  - rewrite decide_True by done. constructor; [|exact IH].
    split; [reflexivity|]. simpl. apply pipeRtcpFeedback_elems.
Qed.

Lemma pipeCodecs_no_rtx codecs :
  Forall (fun c => isRtxLower (MimeType c) = false) (pipeCodecs codecs).
Proof.
  induction codecs as [|codec rest IH]; simpl; [constructor|].
  destruct (isRtxLower (MimeType codec)) eqn:Hrtx; [exact IH|].
  by constructor.
Qed.

(** C9. The pipe consumer parameters hold the consumable codecs that are
    not RTX, in order, each unchanged but for its feedback, of which
    exactly the entries equal to (nack, pli) or (ccm, fir) are kept; the
    header extensions other than abs-send-time; and one encoding per
    consumable encoding with the same ssrc, rid and codec payload type
    and no rtx.  On the feedback list of scenario D, (nack, pli) and
    (ccm, fir) remain. *)
Theorem pipe_consumer_parameters (consumableParams : RtpParameters) :
  let out := GetPipeConsumerRtpParameters consumableParams in
  Forall2 (fun cin cout =>
             cout = setRtcpFeedbacks cin (RtcpFeedbacks cout) /\
             elems (RtcpFeedbacks cout) =
               filter (fun fb => fb = nackPli \/ fb = ccmFir)
                      (elems (RtcpFeedbacks cin)))
          (filter (fun c => isRtxLower (MimeType c) = false)
                  (Codecs consumableParams))
          (Codecs out) /\
  Forall (fun c => isRtxLower (MimeType c) = false) (Codecs out) /\
  HeaderExtensions out =
    filter (fun ext => Uri ext <> absSendTime)
           (HeaderExtensions consumableParams) /\
  Forall2 (fun ein eout =>
             Ssrc eout = Ssrc ein /\ Rid eout = Rid ein /\
             CodecPayloadType eout = CodecPayloadType ein /\
             Rtx eout = None)
          (Encodings consumableParams) (Encodings out) /\
  Rtcp out = Rtcp consumableParams /\
  map RtcpFeedbacks
      (Codecs (GetPipeConsumerRtpParameters examplePipeConsumable)) =
    [Some [nackPli; ccmFir]].
Proof.
  simpl. split; [apply pipeCodecs_spec|]. split; [apply pipeCodecs_no_rtx|].
  split.
  - apply List_filter_decide. intros ext. unfold absSendTime.
    rewrite negb_true_iff. apply eqb_false_iff.
  - split; [|split; reflexivity].
    induction (Encodings consumableParams) as [|e l IH]; simpl;
      constructor; [|exact IH].
    by destruct e.
Qed.

(** ** The feasibility check *)

Section FeasibilityFacts.

Variable negotiate : RtpH264Parameter -> RtpH264Parameter -> option string.

(** The check refuses a capability set with an invalid codec. *)
Lemma CanConsume_invalid_capability consumableParams caps :
  checkedCapCodecs (CapCodecs caps) = None ->
  CanConsume negotiate consumableParams caps = false.
Proof. unfold CanConsume. by intros ->. Qed.

Lemma checkedCapCodecs_invalid capCodecs c :
  c ∈ capCodecs ->
  MimeType c = "" \/ ClockRate c = 0 ->
  checkedCapCodecs capCodecs = None.
Proof.
  intros Hin Hbad. induction Hin as [c l|c c' l Hin IH]; simpl.
  - unfold checkCodecCapability.
    destruct Hbad as [-> | ->]; simpl; [reflexivity|].
    by rewrite orb_true_r.
  - destruct (checkCodecCapability c') as [? [?|]]; [reflexivity|].
    by rewrite IH.
Qed.

(** The check refuses when no consumable codec has a Strict match. *)
Lemma CanConsume_no_match consumableParams caps capCodecs :
  checkedCapCodecs (CapCodecs caps) = Some capCodecs ->
  Forall (fun c => hasStrictMatch negotiate capCodecs c = false)
         (Codecs consumableParams) ->
  CanConsume negotiate consumableParams caps = false.
Proof.
  unfold CanConsume. intros -> Hall.
  enough (matchingCodecsOf negotiate (Codecs consumableParams) capCodecs
          = []) as -> by reflexivity.
  induction Hall as [|c l Hc _ IH]; simpl; [reflexivity|].
  unfold hasStrictMatch in Hc.
  destruct (selectMatchedCodecs negotiate c capCodecs codecMatchStrict)
    as [[m matched] c'].
  simpl in Hc. subst matched. exact IH.
Qed.

(** The check refuses when the capability codec matched first has a
    mime type that ends in the lower-case /rtx. *)
Lemma CanConsume_first_match_rtx consumableParams caps capCodecs first rest :
  checkedCapCodecs (CapCodecs caps) = Some capCodecs ->
  matchingCodecsOf negotiate (Codecs consumableParams) capCodecs =
    first :: rest ->
  HasSuffix (MimeType first) "/rtx" = true ->
  CanConsume negotiate consumableParams caps = false.
Proof. unfold CanConsume. by intros -> -> ->. Qed.

End FeasibilityFacts.

(** C5, at the input where the code departs from it. The only consumable
    codec is video/rtx, an RTX codec, and it has a Strict match in a
    capability set that spells the mime type video/RTX: the check answers
    true, because it looks for the suffix in the mime type of the matched
    capability codec without lowering it.  Against the capability set
    that spells video/rtx the answer is false. *)
Theorem CanConsume_upper_case_rtx :
  map (fun c => isRtxLower (MimeType c)) (Codecs exampleRtxConsumable) =
    [true] /\
  map (hasStrictMatch exampleNegotiate (CapCodecs exampleUpperRtxCaps))
      (Codecs exampleRtxConsumable) = [true] /\
  CanConsume exampleNegotiate exampleRtxConsumable exampleUpperRtxCaps = true /\
  CanConsume exampleNegotiate exampleRtxConsumable exampleLowerRtxCaps = false.
Proof. repeat split. Qed.

(** ** The producer mapping *)

Lemma GetProducerRtpParametersMapping_run negotiate random rangeOrder
    params caps n codecs m1 err1 m2 err2 exts encodings n' :
  mappingMediaLoop negotiate (CapCodecs caps) 0 (Codecs params) ∅ None =
    (codecs, m1, err1, false) ->
  mappingRtxLoop (CapCodecs caps) codecs 0 codecs m1 err1 =
    Some (m2, err2, false) ->
  mappingHeaderExtensions (CapHeaderExtensions caps)
    (HeaderExtensions params) [] = (exts, None) ->
  mappingEncodings random (Encodings params) n = (encodings, n') ->
  GetProducerRtpParametersMapping negotiate random rangeOrder params caps n =
    Some (mkRtpParameters codecs (HeaderExtensions params)
                          (Encodings params) (Rtcp params),
          mkRtpMappingParameters (mappingCodecs rangeOrder codecs m2)
                                 exts encodings,
          err2, n').
Proof.
  intros H1 H2 H3 H4. unfold GetProducerRtpParametersMapping.
  rewrite H1. cbn [HeaderExtensions Encodings]. rewrite H2, H3, H4.
  reflexivity.
Qed.

(** The first loop leaves the function only on a codec that fails
    [checkCodecParameters]: a codec without a match never ends the
    call. *)
Lemma mappingMediaLoop_returned negotiate capCodecs codecs :
  forall i m err,
    Forall (fun c => checkCodecParameters c = None) codecs ->
    snd (mappingMediaLoop negotiate capCodecs i codecs m err) = false.
Proof.
  induction codecs as [|c l IH]; intros i m err Hall; [reflexivity|].
  apply Forall_cons in Hall as [Hc Hl]. simpl. rewrite Hc.
  destruct (isRtxLower (MimeType c)).
  - specialize (IH (S i) m None Hl).
    destruct (mappingMediaLoop negotiate capCodecs (S i) l m None)
      as [[[? ?] ?] ?].
    exact IH.
  - destruct (selectMatchedCodecs negotiate c capCodecs
                                  codecMatchStrictAndModify)
      as [[matchedCapCodec matched] c'].
    match goal with
    | |- context [mappingMediaLoop negotiate capCodecs (S i) l ?m' ?e] =>
        specialize (IH (S i) m' e Hl);
        destruct (mappingMediaLoop negotiate capCodecs (S i) l m' e)
          as [[[? ?] ?] ?]
    end.
    exact IH.
Qed.

Section UnmatchedCodec.

Variable random : nat -> Z.
Variable rangeOrder :
  list (nat * RtpCodecCapability) -> list (nat * RtpCodecCapability).
Hypothesis rangeOrder_perm : forall l, rangeOrder l ≡ₚ l.

Ltac run_mapping :=
  eapply eq_trans;
  [ eapply GetProducerRtpParametersMapping_run;
    [ vm_compute; reflexivity | vm_compute; reflexivity
    | reflexivity | reflexivity ]
  | unfold mappingCodecs;
    match goal with
    | |- context [@map_to_list ?K ?A ?M ?F ?m] =>
        let l := eval vm_compute in (@map_to_list K A M F m) in
        change (@map_to_list K A M F m) with l
    end ].

(** The producer whose only codec is VP8, against a router that has
    opus alone: the error is set, and the mapping is built all the
    same. *)
Lemma unmatched_codec_alone :
  GetProducerRtpParametersMapping exampleNegotiate random rangeOrder
    exampleVideoProducer exampleAudioRouterCaps 0 =
  Some (exampleVideoProducer,
        mkRtpMappingParameters
          [mkRtpMappingCodec 96 0] []
          [mkRtpMappingEncoding "" 1111 (random 0%nat)],
        Some (unsupportedCodec vp8Produced), 1%nat).
Proof.
  run_mapping.
  match goal with
  | |- context [rangeOrder ?l] =>
      pose proof (rangeOrder_perm l) as HP;
      apply Permutation_singleton_r in HP; rewrite HP
  end.
  reflexivity.
Qed.

(** The producer with VP8 and then opus: the error set for VP8 is
    overwritten in the turn of opus, and VP8 is mapped to payload
    type 0. *)
Lemma unmatched_codec_then_matched :
  exists mapCodecs,
    GetProducerRtpParametersMapping exampleNegotiate random rangeOrder
      exampleProducer exampleAudioRouterCaps 0 =
    Some (exampleProducer,
          mkRtpMappingParameters mapCodecs []
            [mkRtpMappingEncoding "" 1111 (random 0%nat)],
          None, 1%nat) /\
    (mapCodecs = [mkRtpMappingCodec 96 0; mkRtpMappingCodec 111 100] \/
     mapCodecs = [mkRtpMappingCodec 111 100; mkRtpMappingCodec 96 0]).
Proof.
  eexists. split.
  - run_mapping. reflexivity.
  - match goal with
    | |- context [rangeOrder ?l] =>
        pose proof (rangeOrder_perm l) as HP;
        apply Permutation_sym, Permutation_length_2_inv in HP;
        destruct HP as [-> | ->]
    end; [right|left]; reflexivity.
Qed.

End UnmatchedCodec.

(** C1, at the inputs where the code departs from it. The producer codec
    video/VP8 is not an RTX codec and has no Strict+Modify match in the
    capabilities of a router that has opus alone.  With this codec alone
    the call returns the unsupported-codec error together with a mapping
    that has a codec entry and an encoding entry; with opus after it the
    call returns no error at all and maps VP8 to payload type 0.  Both
    hold for every order in which the map is ranged over. *)
Theorem mapping_continues_after_unmatched_codec
    (random : nat -> Z)
    (rangeOrder :
       list (nat * RtpCodecCapability) -> list (nat * RtpCodecCapability)) :
  (forall l, rangeOrder l ≡ₚ l) ->
  isRtxLower (MimeType vp8Produced) = false /\
  snd (fst (selectMatchedCodecs exampleNegotiate vp8Produced
              (CapCodecs exampleAudioRouterCaps) codecMatchStrictAndModify))
    = false /\
  GetProducerRtpParametersMapping exampleNegotiate random rangeOrder
    exampleVideoProducer exampleAudioRouterCaps 0 =
  Some (exampleVideoProducer,
        mkRtpMappingParameters
          [mkRtpMappingCodec 96 0] []
          [mkRtpMappingEncoding "" 1111 (random 0%nat)],
        Some (unsupportedCodec vp8Produced), 1%nat) /\
  exists mapCodecs,
    GetProducerRtpParametersMapping exampleNegotiate random rangeOrder
      exampleProducer exampleAudioRouterCaps 0 =
    Some (exampleProducer,
          mkRtpMappingParameters mapCodecs []
            [mkRtpMappingEncoding "" 1111 (random 0%nat)],
          None, 1%nat) /\
    mkRtpMappingCodec 96 0 ∈ mapCodecs.
Proof.
  intros Hperm. split; [reflexivity|]. split; [reflexivity|].
  split; [by apply unmatched_codec_alone|].
  destruct (unmatched_codec_then_matched random rangeOrder Hperm)
    as (mapCodecs & Hrun & [-> | ->]);
    eexists; (split; [exact Hrun|]); [left|right; left].
Qed.

Lemma mapping_continues_after_unmatched_codec_witness :
  (forall l, exampleOrder l ≡ₚ l) /\
  GetProducerRtpParametersMapping exampleNegotiate exampleRandom exampleOrder
    exampleVideoProducer exampleAudioRouterCaps 0 =
  Some (exampleVideoProducer,
        mkRtpMappingParameters
          [mkRtpMappingCodec 96 0] []
          [mkRtpMappingEncoding "" 1111 (exampleRandom 0%nat)],
        Some (unsupportedCodec vp8Produced), 1%nat).
Proof.
  split; [intros l; reflexivity|].
  destruct (mapping_continues_after_unmatched_codec exampleRandom exampleOrder)
    as (_ & _ & H & _); [intros l; reflexivity|exact H].
Defined.

(** C7, at the input where the code departs from it. A router configured
    with opus, and the producer that sends VP8 and opus: the three calls
    succeed, and the consumable codec emitted for VP8 has payload type 0,
    which is the payload type of no capability codec of the router.  It
    is the outcome of the step the mapping builder takes after a codec
    without a match. *)
Theorem round_trip_payload_type_outside_capabilities
    (random : nat -> Z)
    (rangeOrder :
       list (nat * RtpCodecCapability) -> list (nat * RtpCodecCapability)) :
  (forall l, rangeOrder l ≡ₚ l) ->
  exists mapping out,
    GenerateRouterRtpCapabilities exampleNegotiate exampleSupported
      [opusConfigured] = (exampleAudioRouterCaps, None) /\
    GetProducerRtpParametersMapping exampleNegotiate random rangeOrder
      exampleProducer exampleAudioRouterCaps 0 =
      Some (exampleProducer, mapping, None, 1%nat) /\
    GetConsumableRtpParameters "audio" exampleProducer exampleAudioRouterCaps
      mapping = Some (out, None) /\
    map PayloadType (Codecs out) = [0; 100] /\
    map PreferredPayloadType (CapCodecs exampleAudioRouterCaps) = [100] /\
    ~ (forall pt, pt ∈ map PayloadType (Codecs out) ->
                  pt ∈ map PreferredPayloadType
                         (CapCodecs exampleAudioRouterCaps)).
Proof.
  intros Hperm.
  destruct (unmatched_codec_then_matched random rangeOrder Hperm)
    as (mapCodecs & Hrun & Horder).
  assert (Hout : exists out,
             GetConsumableRtpParameters "audio" exampleProducer
               exampleAudioRouterCaps
               (mkRtpMappingParameters mapCodecs []
                  [mkRtpMappingEncoding "" 1111 (random 0%nat)]) =
               Some (out, None) /\
             map PayloadType (Codecs out) = [0; 100]).
  { destruct Horder as [-> | ->]; eexists; split; reflexivity. }
  destruct Hout as (out & Hcons & Hpts).
  eexists _, out. split; [reflexivity|]. split; [exact Hrun|].
  split; [exact Hcons|]. split; [exact Hpts|].
  split; [reflexivity|].
  rewrite Hpts. intros Hsub.
  assert (H0 : 0 ∈ [100]) by (apply (Hsub 0); left).
  inversion H0 as [|? ? ? H1]; inversion H1.
Qed.

Lemma round_trip_payload_type_outside_capabilities_witness :
  (forall l, exampleOrder l ≡ₚ l) /\
  exists mapping out,
    GetProducerRtpParametersMapping exampleNegotiate exampleRandom
      exampleOrder exampleProducer exampleAudioRouterCaps 0 =
      Some (exampleProducer, mapping, None, 1%nat) /\
    GetConsumableRtpParameters "audio" exampleProducer exampleAudioRouterCaps
      mapping = Some (out, None) /\
    map PayloadType (Codecs out) = [0; 100].
Proof.
  split; [intros l; reflexivity|].
  destruct (round_trip_payload_type_outside_capabilities exampleRandom
              exampleOrder)
    as (mapping & out & _ & Hmap & Hcons & Hpts & _);
    [intros l; reflexivity|].
  exists mapping, out. auto.
Defined.

Lemma matchedCodecs_rules_witness :
  fst (matchedCodecs exampleNegotiate
         (mkRtpCodecCapability "" "audio/OPUS" 0 111 48000 0 None None)
         (mkRtpCodecCapability "audio" "audio/opus" 100 0 48000 2 None None)
         codecMatchStrict) = true.
Proof.
  apply (matchedCodecs_rules exampleNegotiate
           (mkRtpCodecCapability "" "audio/OPUS" 0 111 48000 0 None None)
           (mkRtpCodecCapability "audio" "audio/opus" 100 0 48000 2 None None)
           codecMatchStrict);
    [reflexivity | left; reflexivity | reflexivity | reflexivity].
Defined.

(** * Further properties of the operations *)

(** ** Header extensions and the matcher *)

Lemma length_zero_ltb (s : string) :
  (0 <? String.length s)%nat = false <-> s = "".
Proof. destruct s; cbn; split; intros H; done. Qed.

(** X1. [matchHeaderExtensions] does not depend on the order of its
    arguments, and it holds exactly when the two URIs are equal and the
    two kinds are equal or one of them is empty. *)
Theorem matchHeaderExtensions_sym_spec (aExt bExt : RtpHeaderExtension) :
  matchHeaderExtensions aExt bExt = matchHeaderExtensions bExt aExt /\
  (matchHeaderExtensions aExt bExt = true <->
   Uri aExt = Uri bExt /\
   (ExtKind aExt = "" \/ ExtKind bExt = "" \/ ExtKind aExt = ExtKind bExt)).
Proof.
  unfold matchHeaderExtensions.
  rewrite (String.eqb_sym (ExtKind bExt)), (String.eqb_sym (Uri bExt)).
  split.
  - by rewrite (andb_comm (0 <? String.length (ExtKind aExt))%nat).
  - destruct (0 <? String.length (ExtKind aExt))%nat eqn:Ha;
      destruct (0 <? String.length (ExtKind bExt))%nat eqn:Hb;
      destruct (String.eqb_spec (ExtKind aExt) (ExtKind bExt)) as [Hk|Hk];
      simpl; rewrite ?String.eqb_eq;
      try apply length_zero_ltb in Ha; try apply length_zero_ltb in Hb;
      try (split; [intros H; by auto|intros [H _]; exact H]).
    split; [done|]. intros [_ [H|[H|H]]]; [| |done].
    + rewrite H in Ha. discriminate Ha.
    + rewrite H in Hb. discriminate Hb.
Qed.

(** X2. In the normal mode every codec matches itself, and a match does
    not depend on which of the two codecs is the candidate. *)
Theorem matchedCodecs_normal_refl_sym
    (negotiate : RtpH264Parameter -> RtpH264Parameter -> option string)
    (a b : RtpCodecCapability) :
  fst (matchedCodecs negotiate a a codecMatchNormal) = true /\
  fst (matchedCodecs negotiate a b codecMatchNormal) =
  fst (matchedCodecs negotiate b a codecMatchNormal).
Proof.
  unfold matchedCodecs.
  change (0 <? Z.land codecMatchNormal codecMatchStrict) with false.
  cbv iota. split.
  - rewrite String.eqb_refl, !Z.eqb_refl. simpl.
    rewrite andb_false_r. simpl. by destruct (String.eqb _ "video/h264").
  - rewrite (String.eqb_sym (ToLower (MimeType b))),
      (Z.eqb_sym (ClockRate b)), (Z.eqb_sym (Channels b)),
      (Z.eqb_sym (PacketizationMode
                    (H264 (default zeroParameter (Parameters b))))).
    destruct (String.eqb_spec (ToLower (MimeType a)) (ToLower (MimeType b)))
      as [->|_]; simpl; [|reflexivity].
    destruct (ClockRate a =? ClockRate b); simpl; [|reflexivity].
    destruct (HasPrefix (ToLower (MimeType b)) "audio/"),
      (0 <? Channels a), (0 <? Channels b),
      (Channels a =? Channels b); simpl; try reflexivity;
      destruct (String.eqb (ToLower (MimeType b)) "video/h264");
      try reflexivity;
      by destruct (PacketizationMode _ =? PacketizationMode _).
Qed.


(** X4. [selectMatchedCodecs] returns the first codec of the list that
    matches, together with what the matcher made of the candidate on that
    codec; when no codec matches it returns the zero codec, [false] and
    the candidate unchanged. *)
Theorem selectMatchedCodecs_first
    (negotiate : RtpH264Parameter -> RtpH264Parameter -> option string)
    (a : RtpCodecCapability) (bs : list RtpCodecCapability) (mode : Z) :
  let r := selectMatchedCodecs negotiate a bs mode in
  if r.1.2
  then exists before after,
         bs = before ++ r.1.1 :: after /\
         Forall (fun b => fst (matchedCodecs negotiate a b mode) = false)
                before /\
         matchedCodecs negotiate a r.1.1 mode = (true, r.2)
  else r.1.1 = zeroCodec /\ r.2 = a /\
       Forall (fun b => fst (matchedCodecs negotiate a b mode) = false) bs.
Proof.
  induction bs as [|b bs IH]; simpl; [by repeat split|].
  destruct (matchedCodecs negotiate a b mode) as [matched a'] eqn:Hab.
  destruct matched; simpl.
  - exists [], bs. by repeat split.
  - simpl in IH.
    destruct (selectMatchedCodecs negotiate a bs mode) as [[m matched] a''].
    simpl in *. destruct matched.
    + destruct IH as (before & after & -> & Hno & Hm).
      exists (b :: before), after. repeat split; [|exact Hm].
      constructor; [by rewrite Hab|exact Hno].
    + destruct IH as (-> & -> & Hno). repeat split.
      constructor; [by rewrite Hab|exact Hno].
Qed.

(** ** More on the router capability builder *)

Lemma matchedCodecs_normal_negotiate n1 n2 a b :
  matchedCodecs n1 a b codecMatchNormal =
  matchedCodecs n2 a b codecMatchNormal.
Proof.
  unfold matchedCodecs.
  change (0 <? Z.land codecMatchNormal codecMatchStrict) with false.
  reflexivity.
Qed.

Lemma selectMatchedCodecs_normal_negotiate n1 n2 a bs :
  selectMatchedCodecs n1 a bs codecMatchNormal =
  selectMatchedCodecs n2 a bs codecMatchNormal.
Proof.
  induction bs as [|b bs IH]; simpl; [reflexivity|].
  by rewrite (matchedCodecs_normal_negotiate n1 n2), IH.
Qed.

Lemma generateLoop_negotiate n1 n2 supported mediaCodecs : forall caps idx,
  generateLoop n1 supported mediaCodecs caps idx =
  generateLoop n2 supported mediaCodecs caps idx.
Proof.
  induction mediaCodecs as [|m rest IH]; intros caps idx; [reflexivity|].
  simpl.
  assert (Hstep : generateStep n1 supported m idx =
                  generateStep n2 supported m idx).
  { unfold generateStep.
    destruct (checkCodecCapability m) as [m' [e|]]; [reflexivity|].
    by rewrite (selectMatchedCodecs_normal_negotiate n1 n2). }
  rewrite Hstep.
  destruct (generateStep n2 supported m idx) as [[emitted err] idx'].
  destruct err; [reflexivity|apply IH].
Qed.

(** X5. The capability builder never consults the profile-level-id
    negotiation: its result is the same whatever that function is. *)
Theorem GenerateRouterRtpCapabilities_negotiate
    (n1 n2 : RtpH264Parameter -> RtpH264Parameter -> option string)
    (supported : RtpCapabilities) (mediaCodecs : list RtpCodecCapability) :
  GenerateRouterRtpCapabilities n1 supported mediaCodecs =
  GenerateRouterRtpCapabilities n2 supported mediaCodecs.
Proof.
  unfold GenerateRouterRtpCapabilities.
  destruct (length mediaCodecs =? 0)%nat; [reflexivity|].
  apply generateLoop_negotiate.
Qed.

Lemma pool_nonzero (i : nat) pt :
  DYNAMIC_PAYLOAD_TYPES !! i = Some pt -> pt <> 0.
Proof.
  intros H. apply list_elem_of_lookup_2 in H. revert pt H.
  apply Forall_forall. unfold DYNAMIC_PAYLOAD_TYPES.
  repeat (constructor; [discriminate|]). constructor.
Qed.

Section NormalForm.

Variable negotiate : RtpH264Parameter -> RtpH264Parameter -> option string.
Variable supported : RtpCapabilities.

Lemma normalizeCodec_shape codec mediaCodec :
  let c := normalizeCodec codec mediaCodec in
  RtcpFeedbacks c <> None /\ Parameters c <> None /\
  (if String.eqb (Kind c) "audio" then Channels c <> 0 else Channels c = 0).
Proof.
  unfold normalizeCodec.
  destruct codec as [k mt ppt pt cr ch fb ps]. simpl.
  destruct (String.eqb k "audio") eqn:Hk; simpl;
    [destruct (Z.eqb_spec ch 0)|];
    destruct (Parameters mediaCodec); simpl;
    destruct fb; simpl; rewrite ?Hk; done.
Qed.

Lemma generateStep_normalized m idx :
  Forall normalizedCapability (generateStep negotiate supported m idx).1.1.
Proof.
  unfold generateStep.
  destruct (checkCodecCapability m) as [m' [e|]]; [constructor|].
  destruct (selectMatchedCodecs negotiate m' (CapCodecs supported)
                                codecMatchNormal) as [[s matched] m''].
  destruct matched; simpl; [|constructor].
  pose proof (normalizeCodec_shape s m'') as (Hfb & Hp & Hch).
  set (c := normalizeCodec s m'') in *.
  assert (Hrtx : forall c' pt, pt <> 0 ->
             String.eqb (Kind c') "video" = true ->
             normalizedCapability (rtxCodecFor c' pt)).
  { intros c' pt Hpt Hk. apply String.eqb_eq in Hk.
    repeat split; try done. simpl. by rewrite Hk. }
  destruct (Z.eqb_spec (PreferredPayloadType c) 0) as [Hz|Hnz].
  - destruct (DYNAMIC_PAYLOAD_TYPES !! idx) as [pt|] eqn:Hidx;
      [|constructor].
    apply pool_nonzero in Hidx.
    assert (Hc : normalizedCapability (setPreferredPayloadType c pt))
      by (repeat split; done).
    destruct (String.eqb (Kind (setPreferredPayloadType c pt)) "video")
      eqn:Hk; [|by constructor].
    destruct (DYNAMIC_PAYLOAD_TYPES !! S idx) as [pt'|] eqn:Hidx'; simpl;
      [|by constructor].
    apply pool_nonzero in Hidx'.
    constructor; [exact Hc|]. constructor; [by apply Hrtx|constructor].
  - assert (Hc : normalizedCapability c) by (repeat split; done).
    destruct (String.eqb (Kind c) "video") eqn:Hk; [|by constructor].
    destruct (DYNAMIC_PAYLOAD_TYPES !! idx) as [pt'|] eqn:Hidx'; simpl;
      [|by constructor].
    apply pool_nonzero in Hidx'.
    constructor; [exact Hc|]. constructor; [by apply Hrtx|constructor].
Qed.

Lemma generateLoop_normalized mediaCodecs : forall caps idx,
  Forall normalizedCapability (CapCodecs caps) ->
  let r := generateLoop negotiate supported mediaCodecs caps idx in
  Forall normalizedCapability (CapCodecs r.1) /\
  CapHeaderExtensions r.1 = CapHeaderExtensions caps /\
  FecMechanisms r.1 = FecMechanisms caps.
Proof.
  induction mediaCodecs as [|m rest IH]; intros caps idx Hcaps; simpl;
    [done|].
  pose proof (generateStep_normalized m idx) as Hstep.
  destruct (generateStep negotiate supported m idx)
    as [[emitted err] idx'].
  simpl in Hstep.
  assert (Hnext : Forall normalizedCapability
                    (CapCodecs (appendCodecs caps emitted)))
    by (simpl; by apply Forall_app).
  destruct err; [done|].
  destruct (IH (appendCodecs caps emitted) idx' Hnext) as (H1 & H2 & H3).
  done.
Qed.

End NormalForm.

(** X6. Whatever the outcome of the call, every codec the capability
    builder has put in its result has a payload type other than 0, a
    feedback list, a parameter block, and a channel count that is 0
    unless the kind is audio and then is not 0; and for a list of
    configured codecs that is not empty the header extensions and the
    FEC mechanisms of the result are those of the supported table. *)
Theorem GenerateRouterRtpCapabilities_normalized
    (negotiate : RtpH264Parameter -> RtpH264Parameter -> option string)
    (supported : RtpCapabilities) (mediaCodecs : list RtpCodecCapability) :
  let caps :=
    fst (GenerateRouterRtpCapabilities negotiate supported mediaCodecs) in
  Forall normalizedCapability (CapCodecs caps) /\
  match mediaCodecs with
  | [] => caps = zeroCapabilities
  | _ :: _ =>
    CapHeaderExtensions caps = CapHeaderExtensions supported /\
    FecMechanisms caps = FecMechanisms supported
  end.
Proof.
  unfold GenerateRouterRtpCapabilities.
  destruct mediaCodecs as [|m rest]; [by split; [constructor|]|].
  change (length (m :: rest) =? 0)%nat with false. cbv iota.
  set (caps0 := mkRtpCapabilities [] _ _).
  destruct (generateLoop_normalized negotiate supported (m :: rest) caps0
              0%nat) as (H1 & H2 & H3); [constructor|].
  done.
Qed.

Lemma DYNAMIC_PAYLOAD_TYPES_NoDup : NoDup DYNAMIC_PAYLOAD_TYPES.
Proof. apply (bool_decide_unpack _). vm_compute. reflexivity. Qed.

Section FreshTable.

Variable negotiate : RtpH264Parameter -> RtpH264Parameter -> option string.
Variable supported : RtpCapabilities.
Hypothesis no_preferred :
  Forall (fun s => PreferredPayloadType s = 0) (CapCodecs supported).

(** With a table that prefers no payload type, the payload types a turn
    assigns are the next entries of the pool. *)
Lemma generateStep_fresh m idx emitted err idx' :
  generateStep negotiate supported m idx = (emitted, err, idx') ->
  map PreferredPayloadType emitted =
    take (length emitted) (drop idx DYNAMIC_PAYLOAD_TYPES) /\
  (err = None -> idx' = (idx + length emitted)%nat).
Proof.
  unfold generateStep.
  destruct (checkCodecCapability m) as [m' [e|]];
    [intros [= <- <- <-]; split; [reflexivity|done]|].
  destruct (selectMatchedCodecs negotiate m' (CapCodecs supported)
                                codecMatchNormal)
    as [[s matched] m''] eqn:Hsel.
  destruct matched; simpl;
    [|intros [= <- <- <-]; split; [reflexivity|done]].
  apply selectMatchedCodecs_matched in Hsel as [Hin _].
  rewrite Forall_forall in no_preferred.
  rewrite normalizeCodec_PreferredPayloadType, (no_preferred s Hin).
  change (0 =? 0) with true. cbv iota.
  destruct (DYNAMIC_PAYLOAD_TYPES !! idx) as [pt|] eqn:Hidx;
    [|intros [= <- <- <-]; split; [reflexivity|done]].
  rewrite (drop_S _ _ _ Hidx).
  destruct (String.eqb (Kind (setPreferredPayloadType _ pt)) "video").
  - destruct (DYNAMIC_PAYLOAD_TYPES !! S idx) as [pt'|] eqn:Hidx'.
    + rewrite (drop_S _ _ _ Hidx').
      intros [= <- <- <-]. simpl. split; [reflexivity|]. intros _. lia.
    + intros [= <- <- <-]. simpl. split; [by rewrite take_0|done].
  - intros [= <- <- <-]. simpl. split; [by rewrite take_0|]. intros _. lia.
Qed.

Lemma generateLoop_fresh mediaCodecs : forall caps idx,
  length (CapCodecs caps) = idx ->
  map PreferredPayloadType (CapCodecs caps) =
    take idx DYNAMIC_PAYLOAD_TYPES ->
  let r := generateLoop negotiate supported mediaCodecs caps idx in
  map PreferredPayloadType (CapCodecs r.1) =
    take (length (CapCodecs r.1)) DYNAMIC_PAYLOAD_TYPES.
Proof.
  induction mediaCodecs as [|m rest IH]; intros caps idx Hlen Hpts; simpl.
  - by rewrite Hlen.
  - destruct (generateStep negotiate supported m idx)
      as [[emitted err] idx'] eqn:Hstep.
    apply generateStep_fresh in Hstep as [Hem Hidx].
    assert (Hnext : map PreferredPayloadType
                      (CapCodecs (appendCodecs caps emitted)) =
                    take (idx + length emitted) DYNAMIC_PAYLOAD_TYPES).
    { simpl. by rewrite map_app, Hpts, Hem, take_take_drop. }
    assert (Hlen' : length (CapCodecs (appendCodecs caps emitted)) =
                    (idx + length emitted)%nat).
    { simpl. rewrite length_app. lia. }
    destruct err as [e|].
    + simpl in Hlen', Hnext |- *. by rewrite Hlen'.
    + rewrite (Hidx eq_refl). by apply IH.
Qed.

End FreshTable.

(** X7. When no entry of the supported table has a preferred payload
    type, the payload types of the codecs in the result of the capability
    builder are the first entries of the pool, in the order of the pool,
    one per codec; so no two codecs of the result have the same payload
    type. *)
Theorem GenerateRouterRtpCapabilities_fresh_payload_types
    (negotiate : RtpH264Parameter -> RtpH264Parameter -> option string)
    (supported : RtpCapabilities) (mediaCodecs : list RtpCodecCapability) :
  Forall (fun s => PreferredPayloadType s = 0) (CapCodecs supported) ->
  let caps :=
    fst (GenerateRouterRtpCapabilities negotiate supported mediaCodecs) in
  map PreferredPayloadType (CapCodecs caps) =
    take (length (CapCodecs caps)) DYNAMIC_PAYLOAD_TYPES /\
  NoDup (map PreferredPayloadType (CapCodecs caps)).
Proof.
  intros Hfresh caps.
  assert (Htake : map PreferredPayloadType (CapCodecs caps) =
                  take (length (CapCodecs caps)) DYNAMIC_PAYLOAD_TYPES).
  { subst caps. unfold GenerateRouterRtpCapabilities.
    destruct (length mediaCodecs =? 0)%nat; [reflexivity|].
    by apply generateLoop_fresh. }
  split; [exact Htake|]. rewrite Htake.
  eapply sublist_NoDup; [apply DYNAMIC_PAYLOAD_TYPES_NoDup|].
  apply sublist_take.
Qed.

Lemma GenerateRouterRtpCapabilities_fresh_payload_types_witness :
  NoDup (map PreferredPayloadType
           (CapCodecs (fst (GenerateRouterRtpCapabilities exampleNegotiate
                              exampleSupported
                              [vp8Configured; opusConfigured])))).
Proof.
  apply (GenerateRouterRtpCapabilities_fresh_payload_types exampleNegotiate
           exampleSupported [vp8Configured; opusConfigured]).
  repeat constructor.
Defined.

(** ** More on the pipe consumer parameters *)

Lemma List_filter_idem {A} (f : A -> bool) (l : list A) :
  List.filter f (List.filter f l) = List.filter f l.
Proof.
  induction l as [|x l IH]; [reflexivity|]. simpl.
  destruct (f x) eqn:Hx; [|exact IH]. simpl. by rewrite Hx, IH.
Qed.

Lemma pipeRtcpFeedback_idem fbs :
  pipeRtcpFeedback (pipeRtcpFeedback fbs) = pipeRtcpFeedback fbs.
Proof.
  unfold pipeRtcpFeedback.
  destruct (List.filter pipeFeedback (elems fbs)) as [|fb kept] eqn:Hkept;
    [reflexivity|].
  unfold elems at 1. simpl default.
  by rewrite <- Hkept, List_filter_idem, Hkept.
Qed.

Lemma pipeCodecs_idem codecs : pipeCodecs (pipeCodecs codecs) = pipeCodecs codecs.
Proof.
  induction codecs as [|codec rest IH]; [reflexivity|]. simpl.
  destruct (isRtxLower (MimeType codec)) eqn:Hrtx; [exact IH|].
  simpl. rewrite Hrtx, IH. unfold setRtcpFeedbacks. simpl.
  by rewrite pipeRtcpFeedback_idem.
Qed.

(** X8. Deriving pipe consumer parameters from pipe consumer parameters
    changes nothing: the operation is idempotent. *)
Theorem GetPipeConsumerRtpParameters_idem (consumableParams : RtpParameters) :
  GetPipeConsumerRtpParameters (GetPipeConsumerRtpParameters consumableParams)
  = GetPipeConsumerRtpParameters consumableParams.
Proof.
  unfold GetPipeConsumerRtpParameters. simpl.
  by rewrite pipeCodecs_idem, List_filter_idem, map_map.
Qed.

(** ** More on validation *)

Lemma lower_ascii_slash (c : ascii) :
  Ascii.eqb (lower_ascii c) "/" = Ascii.eqb c "/".
Proof.
  destruct c as [[] [] [] [] [] [] [] []]; reflexivity.
Qed.

Lemma SplitSlashHead_ToLower (s : string) :
  ToLower (SplitSlashHead s) = SplitSlashHead (ToLower s).
Proof.
  induction s as [|c s IH]; [reflexivity|]. simpl.
  rewrite lower_ascii_slash.
  destruct (Ascii.eqb c "/"); [reflexivity|]. simpl. by rewrite IH.
Qed.

Lemma SplitSlashHead_audio (s : string) :
  HasPrefix s "audio/" = true -> SplitSlashHead s = "audio".
Proof.
  intros H.
  repeat (destruct s as [|? s]; cbn [HasPrefix] in H; [discriminate H|];
          apply andb_true_iff in H as [Hc H];
          apply Ascii.eqb_eq in Hc; subst).
  reflexivity.
Qed.

(** X9. A codec that [checkCodecCapability] refuses has an empty mime
    type or a zero clock rate and is left as it was.  A codec it accepts
    has neither, keeps every field but the kind, keeps the kind too when
    one was given, gets the kind audio when none was given and the mime
    type starts with audio/ in any case, and is accepted unchanged when
    checked again. *)
Theorem checkCodecCapability_spec (codec : RtpCodecCapability) :
  let r := checkCodecCapability codec in
  match snd r with
  | Some e =>
    fst r = codec /\ (MimeType codec = "" \/ ClockRate codec = 0) /\
    e = TypeError "invalid RTCRtpCodecCapability" []
  | None =>
    MimeType codec <> "" /\ ClockRate codec <> 0 /\
    fst r = setKind codec (Kind (fst r)) /\
    (Kind codec <> "" -> fst r = codec) /\
    (Kind codec = "" ->
     HasPrefix (ToLower (MimeType codec)) "audio/" = true ->
     Kind (fst r) = "audio") /\
    checkCodecCapability (fst r) = (fst r, None)
  end.
Proof.
  assert (Hlen : forall s, (String.length s =? 0)%nat = true <-> s = "")
    by (intros []; done).
  unfold checkCodecCapability.
  destruct (String.length (MimeType codec) =? 0)%nat eqn:Hmt;
    cbn [orb fst snd].
  { apply Hlen in Hmt. auto. }
  destruct (Z.eqb_spec (ClockRate codec) 0) as [Hcr|Hcr]; cbn [fst snd];
    [by auto|].
  assert (Hmime : MimeType codec <> "")
    by (intros E; apply Hlen in E; congruence).
  destruct (String.length (Kind codec) =? 0)%nat eqn:Hk; cbn [fst snd].
  - apply Hlen in Hk. repeat split; try done.
    + intros _ Haudio. cbn [Kind setKind].
      rewrite SplitSlashHead_ToLower. by apply SplitSlashHead_audio.
    + cbn [MimeType ClockRate Kind setKind]. rewrite Hmt. cbn [orb].
      destruct (Z.eqb_spec (ClockRate codec) 0); [done|].
      destruct (String.length (ToLower _) =? 0)%nat; reflexivity.
  - assert (Hkind : Kind codec <> "")
      by (intros E; apply Hlen in E; congruence).
    repeat split; try done.
    + by destruct codec.
    + rewrite Hmt, Hk. cbn [orb].
      by destruct (Z.eqb_spec (ClockRate codec) 0).
Qed.

(** ** More on the consumer side *)

Lemma checkCodecCapability_error c e :
  snd (checkCodecCapability c) = Some e ->
  e = TypeError "invalid RTCRtpCodecCapability" [].
Proof.
  unfold checkCodecCapability.
  destruct (_ || _); [by intros [= <-]|].
  by destruct (String.length (Kind c) =? 0)%nat.
Qed.

Lemma checkCodecCapability_setKind c :
  exists k, fst (checkCodecCapability c) = setKind c k.
Proof.
  unfold checkCodecCapability.
  destruct (_ || _); [exists (Kind c); by destruct c|].
  destruct (String.length (Kind c) =? 0)%nat;
    [by eexists|exists (Kind c); by destruct c].
Qed.

Lemma firstCapabilityError_invalid capCodecs c :
  c ∈ capCodecs ->
  MimeType c = "" \/ ClockRate c = 0 ->
  firstCapabilityError capCodecs =
    Some (TypeError "invalid RTCRtpCodecCapability" []).
Proof.
  intros Hin Hbad. induction Hin as [c l|c c' l Hin IH]; simpl.
  - unfold checkCodecCapability.
    destruct Hbad as [-> | ->]; simpl; [reflexivity|].
    by rewrite orb_true_r.
  - destruct (snd (checkCodecCapability c')) as [e|] eqn:He.
    + by rewrite (checkCodecCapability_error c' e He).
    + by apply IH.
Qed.

(** X10. A capability set that holds a codec with an empty mime type or
    a zero clock rate is refused by both consumer-side operations:
    [CanConsume] answers false, and [GetConsumerRtpParameters] returns
    the type error with empty parameters and draws no random number. *)
Theorem consumer_side_invalid_capability
    (negotiate : RtpH264Parameter -> RtpH264Parameter -> option string)
    (random : nat -> Z)
    (consumableParams : RtpParameters) (caps : RtpCapabilities) (n : nat)
    (c : RtpCodecCapability) :
  c ∈ CapCodecs caps ->
  MimeType c = "" \/ ClockRate c = 0 ->
  CanConsume negotiate consumableParams caps = false /\
  GetConsumerRtpParameters negotiate random consumableParams caps n =
    (zeroParameters, Some (TypeError "invalid RTCRtpCodecCapability" []), n).
Proof.
  intros Hin Hbad. split.
  - apply CanConsume_invalid_capability.
    by apply (checkedCapCodecs_invalid _ c).
  - unfold GetConsumerRtpParameters.
    by rewrite (firstCapabilityError_invalid _ c Hin Hbad).
Qed.

Lemma consumer_side_invalid_capability_witness :
  CanConsume exampleNegotiate examplePipeConsumable
    (mkRtpCapabilities [zeroCodec] [] []) = false.
Proof.
  apply (consumer_side_invalid_capability exampleNegotiate exampleRandom
           examplePipeConsumable (mkRtpCapabilities [zeroCodec] [] [])
           0%nat zeroCodec); [left|by left].
Defined.

Section ConsumerEncoding.

Variable negotiate : RtpH264Parameter -> RtpH264Parameter -> option string.

Lemma consumerCodecsLoop_rtxSupported capCodecs codecs : forall b,
  let r := consumerCodecsLoop negotiate codecs capCodecs b in
  snd r = b || existsb rtxSuffix (fst r).
Proof.
  induction codecs as [|codec rest IH]; intros b; simpl;
    [by rewrite orb_false_r|].
  destruct (selectMatchedCodecs negotiate codec capCodecs codecMatchStrict)
    as [[m matched] codec'].
  destruct matched; simpl; [|apply IH].
  match goal with
  | |- context [consumerCodecsLoop negotiate rest capCodecs ?b'] =>
      specialize (IH b');
      destruct (consumerCodecsLoop negotiate rest capCodecs b')
        as [more r']
  end.
  simpl in *. rewrite IH. unfold rtxSuffix at 2. simpl.
  destruct b, (HasSuffix (MimeType codec') "/rtx"); reflexivity.
Qed.

Lemma GetConsumerRtpParameters_cases random consumableParams caps n :
  let r := GetConsumerRtpParameters negotiate random consumableParams caps n in
  (exists out e,
     r = (out, Some e, n) /\ HeaderExtensions out = [] /\
     Encodings out = [] /\ Rtcp out = zeroRtcp) \/
  (exists codecs,
     let rtx := existsb rtxSuffix codecs in
     r = (mkRtpParameters codecs
            (consumerHeaderExtensions (HeaderExtensions consumableParams)
                                      (CapHeaderExtensions caps))
            [mkRtpEncoding (random n) "" 0
               (if rtx then Some (mkRtpEncoding (random (S n)) "" 0 None)
                else None)]
            (Rtcp consumableParams),
          None, if rtx then S (S n) else S n)).
Proof.
  unfold GetConsumerRtpParameters.
  destruct (firstCapabilityError (CapCodecs caps)) as [e|];
    [left; by eexists _, _|].
  pose proof (consumerCodecsLoop_rtxSupported (CapCodecs caps)
                (Codecs consumableParams) false) as Hrtx.
  destruct (consumerCodecsLoop negotiate (Codecs consumableParams)
              (CapCodecs caps) false) as [codecs rtxSupported].
  simpl in Hrtx. subst rtxSupported.
  destruct codecs as [|first rest]; [left; by eexists _, _|].
  cbv beta iota.
  destruct (HasSuffix (MimeType first) "/rtx"); [left; by eexists _, _|].
  right. exists (first :: rest). unfold generateRandomNumber.
  cbv beta iota zeta.
  by destruct (existsb rtxSuffix (first :: rest)).
Qed.

End ConsumerEncoding.

(** X11. When [GetConsumerRtpParameters] fails it returns no header
    extension, no encoding and the zero RTCP configuration, and draws no
    random number.  When it succeeds it returns exactly one encoding,
    whose ssrc is the next random number; the encoding has an rtx part,
    with the random number after that as ssrc, exactly when one of the
    returned codecs has a mime type ending in /rtx, and the count of
    draws advances by two or by one accordingly.  The RTCP configuration
    is the consumable one, and the header extensions are the consumable
    header extensions, in order, whose id is the preferred id of some
    capability header extension. *)
Theorem GetConsumerRtpParameters_shape
    (negotiate : RtpH264Parameter -> RtpH264Parameter -> option string)
    (random : nat -> Z)
    (consumableParams : RtpParameters) (caps : RtpCapabilities) (n : nat) :
  let r := GetConsumerRtpParameters negotiate random consumableParams caps n in
  match r.1.2 with
  | Some _ =>
    HeaderExtensions r.1.1 = [] /\ Encodings r.1.1 = [] /\
    Rtcp r.1.1 = zeroRtcp /\ r.2 = n
  | None =>
    let rtx := existsb rtxSuffix (Codecs r.1.1) in
    Encodings r.1.1 =
      [mkRtpEncoding (random n) "" 0
         (if rtx then Some (mkRtpEncoding (random (S n)) "" 0 None)
          else None)] /\
    r.2 = (if rtx then S (S n) else S n) /\
    Rtcp r.1.1 = Rtcp consumableParams /\
    HeaderExtensions r.1.1 `sublist_of` HeaderExtensions consumableParams /\
    forall ext,
      ext ∈ HeaderExtensions r.1.1 <->
      ext ∈ HeaderExtensions consumableParams /\
      exists capExt, capExt ∈ CapHeaderExtensions caps /\
                     PreferredId capExt = Id ext
  end.
Proof.
  intros r.
  destruct (GetConsumerRtpParameters_cases negotiate random consumableParams
              caps n) as [(out & e & Hr & H1 & H2 & H3)|(codecs & Hr)];
    fold r in Hr; rewrite Hr; [by simpl|].
  cbn [fst snd Codecs Encodings HeaderExtensions Rtcp].
  do 3 (split; [reflexivity|]). split.
  - unfold consumerHeaderExtensions. clear.
    induction (HeaderExtensions consumableParams) as [|e l IH]; simpl;
      [constructor|].
    destruct (existsb _ _); by constructor.
  - intros ext. unfold consumerHeaderExtensions.
    rewrite !list_elem_of_In, filter_In, existsb_exists.
    split; intros [Hin (capExt & Hcap & Hid)]; (split; [exact Hin|]);
      exists capExt; [rewrite list_elem_of_In|rewrite <- list_elem_of_In];
      (split; [exact Hcap|]); by apply Z.eqb_eq.
Qed.

Section Feasibility.

Variable negotiate : RtpH264Parameter -> RtpH264Parameter -> option string.

Abbreviation chk := (fun c => fst (checkCodecCapability c)).

Lemma matchedCodecs_mime a b mode :
  fst (matchedCodecs negotiate a b mode) = true ->
  ToLower (MimeType a) = ToLower (MimeType b).
Proof.
  unfold matchedCodecs.
  destruct (String.eqb_spec (ToLower (MimeType a)) (ToLower (MimeType b)));
    simpl; done.
Qed.

Lemma selectMatchedCodecs_checked a bs mode :
  let r := selectMatchedCodecs negotiate a bs mode in
  let r' := selectMatchedCodecs negotiate a (map chk bs) mode in
  r'.1.2 = r.1.2 /\ MimeType r'.1.1 = MimeType r.1.1.
Proof.
  induction bs as [|b bs IH]; simpl; [done|].
  destruct (checkCodecCapability_setKind b) as [k ->].
  change (matchedCodecs negotiate a (setKind b k) mode)
    with (matchedCodecs negotiate a b mode).
  destruct (matchedCodecs negotiate a b mode) as [matched a'].
  by destruct matched.
Qed.

Lemma checkedCapCodecs_cases capCodecs :
  match checkedCapCodecs capCodecs with
  | None => firstCapabilityError capCodecs <> None
  | Some cs => firstCapabilityError capCodecs = None /\ cs = map chk capCodecs
  end.
Proof.
  induction capCodecs as [|c l IH]; simpl; [done|].
  destruct (checkCodecCapability c) as [c' [e|]]; simpl; [done|].
  destruct (checkedCapCodecs l); [|done].
  destruct IH as [-> ->]. done.
Qed.

(** The codec that decides [CanConsume] and the codec that decides
    [GetConsumerRtpParameters] end in /rtx together. *)
Lemma first_match_rtx_agree capCodecs codecs : forall b,
  Forall rtxSpelledLower codecs ->
  Forall rtxSpelledLower capCodecs ->
  match matchingCodecsOf negotiate codecs (map chk capCodecs) with
  | [] => true
  | first :: _ => HasSuffix (MimeType first) "/rtx"
  end =
  match fst (consumerCodecsLoop negotiate codecs capCodecs b) with
  | [] => true
  | first :: _ => HasSuffix (MimeType first) "/rtx"
  end.
Proof.
  intros b Hcodecs Hcaps. revert b.
  induction Hcodecs as [|c rest Hc _ IH]; intros b; simpl; [reflexivity|].
  pose proof (selectMatchedCodecs_checked c capCodecs codecMatchStrict)
    as [Hflag Hmime].
  pose proof (selectMatchedCodecs_no_modify negotiate c capCodecs
                codecMatchStrict eq_refl) as Hsame.
  destruct (selectMatchedCodecs negotiate c (map chk capCodecs)
                                codecMatchStrict) as [[m' matched'] c''].
  destruct (selectMatchedCodecs negotiate c capCodecs codecMatchStrict)
    as [[m matched] c'] eqn:Hsel.
  simpl in Hflag, Hmime, Hsame. subst matched' c'.
  destruct matched; simpl; [|apply IH].
  apply selectMatchedCodecs_matched in Hsel as [Hin Hm].
  apply matchedCodecs_mime in Hm.
  rewrite Forall_forall in Hcaps. specialize (Hcaps m Hin).
  destruct (consumerCodecsLoop negotiate rest capCodecs _) as [more rtx].
  simpl. rewrite Hmime.
  unfold rtxSpelledLower, isRtxLower in Hc, Hcaps.
  by rewrite Hc, Hcaps, Hm.
Qed.

End Feasibility.

(** X12. When every codec on both sides spells the suffix /rtx of its
    mime type, if it has one, in lower case, [CanConsume] answers true
    exactly when [GetConsumerRtpParameters] on the same arguments returns
    no error. *)
Theorem CanConsume_iff_consumer_parameters
    (negotiate : RtpH264Parameter -> RtpH264Parameter -> option string)
    (random : nat -> Z)
    (consumableParams : RtpParameters) (caps : RtpCapabilities) (n : nat) :
  Forall rtxSpelledLower (Codecs consumableParams) ->
  Forall rtxSpelledLower (CapCodecs caps) ->
  CanConsume negotiate consumableParams caps = true <->
  (GetConsumerRtpParameters negotiate random consumableParams caps n).1.2
    = None.
Proof.
  intros Hcodecs Hcaps.
  pose proof (first_match_rtx_agree negotiate (CapCodecs caps)
                (Codecs consumableParams) false Hcodecs Hcaps) as Hagree.
  destruct (GetConsumerRtpParameters_cases negotiate random consumableParams
              caps n) as [(out & e & Hr & _)|(codecs & Hr)];
    simpl in Hr; rewrite Hr; simpl.
  - revert Hr Hagree. unfold CanConsume, GetConsumerRtpParameters.
    pose proof (checkedCapCodecs_cases (CapCodecs caps)) as Hchk.
    destruct (checkedCapCodecs (CapCodecs caps)) as [cs|]; [|done].
    destruct Hchk as [-> ->].
    destruct (consumerCodecsLoop negotiate (Codecs consumableParams)
                (CapCodecs caps) false) as [retained rtxSupported].
    simpl. intros Hr Hagree.
    destruct (matchingCodecsOf negotiate _ _) as [|first rest]; [done|].
    rewrite Hagree. destruct retained as [|first' rest']; [done|].
    destruct (HasSuffix (MimeType first') "/rtx"); [done|].
    revert Hr. unfold generateRandomNumber. by destruct rtxSupported.
  - revert Hr Hagree. unfold CanConsume, GetConsumerRtpParameters.
    pose proof (checkedCapCodecs_cases (CapCodecs caps)) as Hchk.
    destruct (checkedCapCodecs (CapCodecs caps)) as [cs|].
    + destruct Hchk as [-> ->].
      destruct (consumerCodecsLoop negotiate (Codecs consumableParams)
                  (CapCodecs caps) false) as [retained rtxSupported].
      simpl. intros Hr Hagree.
      destruct retained as [|first' rest']; [done|].
      destruct (HasSuffix (MimeType first') "/rtx"); [done|].
      destruct (matchingCodecsOf negotiate _ _) as [|first rest]; [done|].
      by rewrite Hagree.
    + destruct (firstCapabilityError (CapCodecs caps)); done.
Qed.

Lemma CanConsume_iff_consumer_parameters_witness :
  CanConsume exampleNegotiate examplePipeConsumable exampleRouterCaps = true
  <->
  (GetConsumerRtpParameters exampleNegotiate exampleRandom
     examplePipeConsumable exampleRouterCaps 0).1.2 = None.
Proof.
  apply (CanConsume_iff_consumer_parameters exampleNegotiate exampleRandom
           examplePipeConsumable exampleRouterCaps 0);
    repeat constructor.
Defined.

(** ** More on the producer mapping *)

Lemma setParameters_same c : setParameters c (Parameters c) = c.
Proof. by destruct c. Qed.

Section MappingFacts.

Variable negotiate : RtpH264Parameter -> RtpH264Parameter -> option string.

Lemma matchedCodecs_snd a b mode :
  exists p, snd (matchedCodecs negotiate a b mode) = setParameters a p.
Proof.
  unfold matchedCodecs.
  repeat (match goal with
          | |- context [if ?c then _ else _] => destruct c
          | |- context [match negotiate ?x ?y with _ => _ end] =>
              destruct (negotiate x y)
          end; simpl);
    first [by eexists | exists (Parameters a); by rewrite setParameters_same].
Qed.

Lemma selectMatchedCodecs_snd a bs mode :
  exists p, snd (selectMatchedCodecs negotiate a bs mode) = setParameters a p.
Proof.
  induction bs as [|b bs IH]; simpl.
  - exists (Parameters a). by rewrite setParameters_same.
  - pose proof (matchedCodecs_snd a b mode) as [p Hp].
    destruct (matchedCodecs negotiate a b mode) as [matched a'].
    destruct matched; simpl in *; [by exists p|exact IH].
Qed.

(** The first loop: the codecs keep everything but their parameter
    block, the map keeps its keys and gains keys within the range of the
    loop only, and unless the function returned every codec that is not
    RTX has its key. *)
Lemma mappingMediaLoop_keys capCodecs codecs :
  forall i m err codecs' m' err' returned,
    mappingMediaLoop negotiate capCodecs i codecs m err =
      (codecs', m', err', returned) ->
    Forall2 (fun c c' => exists p, c' = setParameters c p) codecs codecs' /\
    (forall k, is_Some (m !! k) -> is_Some (m' !! k)) /\
    (forall k, is_Some (m' !! k) ->
               is_Some (m !! k) \/ (i <= k < i + length codecs)%nat) /\
    (returned = false ->
     forall j c, codecs !! j = Some c ->
                 isRtxLower (MimeType c) = false ->
                 is_Some (m' !! (i + j)%nat)).
Proof.
  assert (Hrefl : forall l : list RtpCodecCapability,
             Forall2 (fun c c' => exists p, c' = setParameters c p) l l).
  { intros l. apply Forall_Forall2_diag, Forall_forall. intros c _.
    exists (Parameters c). by rewrite setParameters_same. }
  induction codecs as [|codec rest IH];
    intros i m err codecs' m' err' returned; simpl.
  - intros [= <- <- <- <-]. repeat split; auto. intros j c Hj. done.
  - destruct (checkCodecParameters codec).
    { intros [= <- <- <- <-]. repeat split; auto. done. }
    destruct (isRtxLower (MimeType codec)) eqn:Hrtx.
    + destruct (mappingMediaLoop negotiate capCodecs (S i) rest m None)
        as [[[rest' m1] err1] ret1] eqn:Hrec.
      intros [= <- <- <- <-].
      apply IH in Hrec as (Hf & Hmono & Hrange & Hkeys).
      split; [constructor; [|exact Hf];
              exists (Parameters codec); by rewrite setParameters_same|].
      split; [exact Hmono|]. split.
      * intros k Hk. destruct (Hrange k Hk) as [?|?]; [by left|right; lia].
      * intros Hret [|j] c Hj Hc; simpl in Hj.
        -- injection Hj as <-. congruence.
        -- replace (i + S j)%nat with (S i + j)%nat by lia. by eapply Hkeys.
    + pose proof (selectMatchedCodecs_snd codec capCodecs
                    codecMatchStrictAndModify) as [p Hp].
      destruct (selectMatchedCodecs negotiate codec capCodecs
                                    codecMatchStrictAndModify)
        as [[matchedCapCodec matched] codec2].
      simpl in Hp. subst codec2.
      match goal with
      | |- context [mappingMediaLoop negotiate capCodecs (S i) rest ?m0 ?e0] =>
          destruct (mappingMediaLoop negotiate capCodecs (S i) rest m0 e0)
            as [[[rest' m1] err1] ret1] eqn:Hrec
      end.
      intros [= <- <- <- <-].
      apply IH in Hrec as (Hf & Hmono & Hrange & Hkeys).
      split.
      { constructor; [|exact Hf].
        destruct (Parameters codec) eqn:Hpar; [by exists p|].
        exists (Parameters codec). by rewrite setParameters_same. }
      split.
      { intros k Hk. apply Hmono.
        destruct (decide (i = k)) as [->|Hne];
          [by rewrite lookup_insert_eq|by rewrite lookup_insert_ne]. }
      split.
      * intros k Hk. destruct (Hrange k Hk) as [Hin|?]; [|right; lia].
        destruct (decide (i = k)) as [->|Hne]; [right; lia|].
        left. by rewrite lookup_insert_ne in Hin.
      * intros Hret [|j] c Hj Hc; simpl in Hj.
        -- apply Hmono. rewrite Nat.add_0_r. by rewrite lookup_insert_eq.
        -- replace (i + S j)%nat with (S i + j)%nat by lia. by eapply Hkeys.
Qed.

End MappingFacts.

Lemma findCapRtxCodec_found pt capCodecs r :
  findCapRtxCodec pt capCodecs = Some (Some r) ->
  r ∈ capCodecs /\ isRtxLower (MimeType r) = true /\
  Apt <$> Parameters r = Some pt.
Proof.
  induction capCodecs as [|c l IH]; simpl; [done|].
  destruct (isRtxLower (MimeType c)) eqn:Hrtx; simpl.
  - destruct (Parameters c) as [p|] eqn:Hp; [|done].
    destruct (Z.eqb_spec (Apt p) pt) as [<-|_].
    + intros [= <-]. rewrite Hp. repeat split; [left|done].
    + intros H. apply IH in H as (Hin & ? & ?). repeat split; [by right|done..].
  - intros H. apply IH in H as (Hin & ? & ?). repeat split; [by right|done..].
Qed.

Lemma findCapRtxCodec_total pt capCodecs :
  rtxHaveParameters capCodecs -> is_Some (findCapRtxCodec pt capCodecs).
Proof.
  intros Hall. induction Hall as [|c l Hc _ IH]; simpl; [by eexists|].
  destruct (isRtxLower (MimeType c)); simpl; [|exact IH].
  destruct (Parameters c) as [p|]; [|by destruct Hc].
  destruct (Apt p =? pt); [by eexists|exact IH].
Qed.

(** The second loop: the map keeps its keys and gains keys within the
    range of the loop only; unless the function returned, the named
    error is the one of the entry and every RTX codec has its key. *)
Lemma mappingRtxLoop_keys capCodecs all codecs :
  forall i m err m' err' returned,
    mappingRtxLoop capCodecs all i codecs m err = Some (m', err', returned) ->
    (forall k, is_Some (m !! k) -> is_Some (m' !! k)) /\
    (forall k, is_Some (m' !! k) ->
               is_Some (m !! k) \/ (i <= k < i + length codecs)%nat) /\
    (returned = true -> err' <> None) /\
    (returned = false ->
     err' = err /\
     forall j c, codecs !! j = Some c ->
                 isRtxLower (MimeType c) = true ->
                 is_Some (m' !! (i + j)%nat)).
Proof.
  induction codecs as [|codec rest IH]; intros i m err m' err' returned;
    simpl.
  - intros [= <- <- <-]. repeat split; auto; done.
  - destruct (isRtxLower (MimeType codec)) eqn:Hrtx; simpl.
    + destruct (Parameters codec) as [p|];
        [|intros [= <- <- <-]; repeat split; auto; done].
      destruct (findPayloadType (Apt p) 0 all) as [associated|];
        [|intros [= <- <- <-]; repeat split; auto; done].
      destruct (findCapRtxCodec _ capCodecs) as [[rtx|]|]; [| |done].
      * intros Hrec. apply IH in Hrec as (Hmono & Hrange & Hret & Hkeys).
        split.
        { intros k Hk. apply Hmono.
          destruct (decide (i = k)) as [->|Hne];
            [by rewrite lookup_insert_eq|by rewrite lookup_insert_ne]. }
        split.
        { intros k Hk. destruct (Hrange k Hk) as [Hin|?]; [|right; lia].
          destruct (decide (i = k)) as [->|Hne]; [right; lia|].
          left. by rewrite lookup_insert_ne in Hin. }
        split; [exact Hret|].
        intros Hr. destruct (Hkeys Hr) as [-> Hk]. split; [reflexivity|].
        intros [|j] c Hj Hc; simpl in Hj.
        -- apply Hmono. rewrite Nat.add_0_r. by rewrite lookup_insert_eq.
        -- replace (i + S j)%nat with (S i + j)%nat by lia. by eapply Hk.
      * intros [= <- <- <-]. repeat split; auto; done.
    + intros Hrec. apply IH in Hrec as (Hmono & Hrange & Hret & Hkeys).
      split; [exact Hmono|]. split.
      { intros k Hk. destruct (Hrange k Hk) as [?|?]; [by left|right; lia]. }
      split; [exact Hret|].
      intros Hr. destruct (Hkeys Hr) as [-> Hk]. split; [reflexivity|].
      intros [|j] c Hj Hc; simpl in Hj.
      * injection Hj as <-. congruence.
      * replace (i + S j)%nat with (S i + j)%nat by lia. by eapply Hk.
Qed.

Lemma mappingMediaLoop_error negotiate capCodecs codecs :
  forall i m err codecs' m' err' returned,
    mappingMediaLoop negotiate capCodecs i codecs m err =
      (codecs', m', err', returned) ->
    (returned = true -> err' <> None) /\
    (returned = false -> isTypeError err = false -> isTypeError err' = false).
Proof.
  induction codecs as [|codec rest IH];
    intros i m err codecs' m' err' returned; simpl.
  - intros [= <- <- <- <-]. by split.
  - destruct (checkCodecParameters codec); [intros [= <- <- <- <-]; by split|].
    destruct (isRtxLower (MimeType codec)).
    + destruct (mappingMediaLoop negotiate capCodecs (S i) rest m None)
        as [[[rest' m1] err1] ret1] eqn:Hrec.
      intros [= <- <- <- <-]. apply IH in Hrec as [Hret Herr].
      split; [exact Hret|]. intros Hr _. by apply Herr.
    + destruct (selectMatchedCodecs negotiate codec capCodecs
                                    codecMatchStrictAndModify)
        as [[matchedCapCodec matched] codec2].
      match goal with
      | |- context [mappingMediaLoop negotiate capCodecs (S i) rest ?m0 ?e0] =>
          destruct (mappingMediaLoop negotiate capCodecs (S i) rest m0 e0)
            as [[[rest' m1] err1] ret1] eqn:Hrec
      end.
      intros [= <- <- <- <-]. apply IH in Hrec as [Hret Herr].
      split; [exact Hret|]. intros Hr _. apply Herr; [exact Hr|].
      by destruct matched.
Qed.

Lemma mappingHeaderExtensions_spec capExts exts : forall acc res err,
  mappingHeaderExtensions capExts exts acc = (res, err) ->
  isTypeError err = false /\
  (err = None ->
   exists new,
     res = acc ++ new /\
     Forall2 (fun ext e =>
                MapId e = Id ext /\
                exists capExt,
                  capExt ∈ capExts /\
                  matchHeaderExtensions ext capExt = true /\
                  MappedId e = PreferredId capExt)
             exts new).
Proof.
  induction exts as [|ext rest IH]; intros acc res err; simpl.
  - intros [= <- <-]. split; [done|]. intros _. exists [].
    by rewrite app_nil_r.
  - destruct (List.find (matchHeaderExtensions ext) capExts)
      as [capExt|] eqn:Hfind; [|intros [= <- <-]; by split].
    intros Hrec. apply IH in Hrec as [Hty Hok]. split; [exact Hty|].
    intros Herr. destruct (Hok Herr) as (new & -> & Hall).
    exists (mkRtpMappingHeaderExt (Id ext) (PreferredId capExt) :: new).
    split; [by rewrite <- app_assoc|].
    constructor; [|exact Hall]. split; [reflexivity|].
    apply find_some in Hfind as [Hin Hm]. exists capExt.
    by rewrite list_elem_of_In.
Qed.

Lemma mappingEncodings_spec random encodings : forall n res n',
  mappingEncodings random encodings n = (res, n') ->
  n' = (n + length encodings)%nat /\
  length res = length encodings /\
  forall i e, encodings !! i = Some e ->
              res !! i = Some (mkRtpMappingEncoding (Rid e) (Ssrc e)
                                                    (random (n + i)%nat)).
Proof.
  induction encodings as [|enc rest IH]; intros n res n'; simpl.
  - intros [= <- <-]. repeat split; [lia|done].
  - unfold generateRandomNumber.
    destruct (mappingEncodings random rest (S n)) as [more n1] eqn:Hrec.
    intros [= <- <-]. apply IH in Hrec as (-> & Hlen & Hlook).
    repeat split; [lia|simpl; by rewrite Hlen|].
    intros [|i] e He; simpl in *.
    + injection He as <-. by rewrite Nat.add_0_r.
    + rewrite (Hlook i e He). do 3 f_equal. lia.
Qed.

Lemma map_lookup_seq {A B} (f : option A -> B) (l : list A) : forall pre,
  map (fun i => f ((pre ++ l) !! i)) (seq (length pre) (length l)) =
  map (fun x => f (Some x)) l.
Proof.
  induction l as [|x l IH]; intros pre; [reflexivity|]. simpl.
  rewrite list_lookup_middle by reflexivity. f_equal.
  specialize (IH (pre ++ [x])).
  rewrite length_app, Nat.add_1_r, <- app_assoc in IH. exact IH.
Qed.

Lemma Forall2_setParameters_fields codecs codecs' :
  Forall2 (fun c c' => exists p, c' = setParameters c p) codecs codecs' ->
  map PayloadType codecs' = map PayloadType codecs /\
  map MimeType codecs' = map MimeType codecs /\
  length codecs' = length codecs.
Proof.
  induction 1 as [|c c' l l' [p ->] _ (IH1 & IH2 & IH3)]; [done|].
  simpl. by rewrite IH1, IH2, IH3.
Qed.

(** The keys of the map after both loops are the indices of the
    codecs. *)
Lemma mapping_keys_complete negotiate capCodecs codecs codecs' m1 err1 m2 err2 :
  mappingMediaLoop negotiate capCodecs 0 codecs ∅ None =
    (codecs', m1, err1, false) ->
  mappingRtxLoop capCodecs codecs' 0 codecs' m1 err1 = Some (m2, err2, false) ->
  (map_to_list m2).*1 ≡ₚ seq 0 (length codecs).
Proof.
  intros H1 H2.
  apply mappingMediaLoop_keys in H1 as (Hf & Hmono1 & Hrange1 & Hkeys1).
  apply mappingRtxLoop_keys in H2 as (Hmono2 & Hrange2 & _ & Hkeys2).
  destruct (Forall2_setParameters_fields _ _ Hf) as (_ & Hmime & Hlen).
  destruct (Hkeys2 eq_refl) as [_ Hk2]. specialize (Hkeys1 eq_refl).
  apply NoDup_Permutation;
    [apply NoDup_fst_map_to_list|apply NoDup_seq|].
  intros k. rewrite elem_of_seq, list_elem_of_fmap. split.
  - intros ([k' v] & -> & Hin). apply elem_of_map_to_list in Hin.
    simpl. assert (Hs : is_Some (m2 !! k')) by by eexists.
    destruct (Hrange2 _ Hs) as [Hs1|?]; [|lia].
    destruct (Hrange1 _ Hs1) as [Hs0|?]; [|lia].
    rewrite lookup_empty in Hs0. by destruct Hs0.
  - intros [_ Hk]. simpl in Hk.
    destruct (lookup_lt_is_Some_2 codecs k Hk) as [c Hc].
    assert (Hc' : exists c', codecs' !! k = Some c' /\
                             MimeType c' = MimeType c).
    { destruct (lookup_lt_is_Some_2 codecs' k ltac:(lia)) as [c' Hc'].
      exists c'. split; [exact Hc'|].
      assert (Hm : map MimeType codecs' !! k = map MimeType codecs !! k)
        by by rewrite Hmime.
      change (map MimeType codecs') with (MimeType <$> codecs') in Hm.
      change (map MimeType codecs) with (MimeType <$> codecs) in Hm.
      rewrite !list_lookup_fmap, Hc, Hc' in Hm. by injection Hm. }
    destruct Hc' as (c' & Hc' & Hmc).
    assert (Hs : is_Some (m2 !! k)).
    { destruct (isRtxLower (MimeType c)) eqn:Hrtx.
      - apply (Hk2 k c' Hc'). by rewrite Hmc.
      - apply Hmono2. by apply (Hkeys1 k c Hc). }
    destruct Hs as [v Hv]. exists (k, v). split; [reflexivity|].
    by apply elem_of_map_to_list.
Qed.

(** X13. A call of [GetProducerRtpParametersMapping] that returns no
    error has mapped everything the producer sent: the original payload
    types of the codec entries are the payload types of the producer
    codecs, each once, in the order the map is ranged over; the header
    extension entries follow the producer header extensions one by one,
    each with the id of the extension and the preferred id of a
    capability extension that matches it; the encoding entries follow
    the producer encodings one by one with their rid and ssrc, the
    mapped ssrc of the i-th being the i-th random number drawn by the
    call; and the call draws one random number per encoding. *)
Theorem GetProducerRtpParametersMapping_covers
    (negotiate : RtpH264Parameter -> RtpH264Parameter -> option string)
    (random : nat -> Z)
    (rangeOrder :
       list (nat * RtpCodecCapability) -> list (nat * RtpCodecCapability))
    (params : RtpParameters) (caps : RtpCapabilities) (n : nat)
    (params' : RtpParameters) (mapping : RtpMappingParameters) (n' : nat) :
  (forall l, rangeOrder l ≡ₚ l) ->
  GetProducerRtpParametersMapping negotiate random rangeOrder params caps n =
    Some (params', mapping, None, n') ->
  map MapPayloadType (MapCodecs mapping) ≡ₚ map PayloadType (Codecs params) /\
  Forall2 (fun ext e =>
             MapId e = Id ext /\
             exists capExt,
               capExt ∈ CapHeaderExtensions caps /\
               matchHeaderExtensions ext capExt = true /\
               MappedId e = PreferredId capExt)
          (HeaderExtensions params) (MapHeaderExtensions mapping) /\
  length (MapEncodings mapping) = length (Encodings params) /\
  (forall i e,
     Encodings params !! i = Some e ->
     MapEncodings mapping !! i =
       Some (mkRtpMappingEncoding (Rid e) (Ssrc e) (random (n + i)%nat))) /\
  n' = (n + length (Encodings params))%nat.
Proof.
  intros Hrange. unfold GetProducerRtpParametersMapping.
  destruct (mappingMediaLoop negotiate (CapCodecs caps) 0 (Codecs params)
              ∅ None) as [[[codecs m1] err1] ret1] eqn:H1.
  pose proof (mappingMediaLoop_error _ _ _ _ _ _ _ _ _ _ H1) as [Hret1 _].
  destruct ret1; [intros [= _ _ -> _]; by destruct Hret1|].
  cbn [HeaderExtensions Encodings].
  destruct (mappingRtxLoop (CapCodecs caps) codecs 0 codecs m1 err1)
    as [[[m2 err2] ret2]|] eqn:H2; [|done].
  pose proof (mappingRtxLoop_keys _ _ _ _ _ _ _ _ _ H2) as (_ & _ & Hret2 & _).
  destruct ret2; [intros [= _ _ -> _]; by destruct Hret2|].
  destruct (mappingHeaderExtensions (CapHeaderExtensions caps)
              (HeaderExtensions params) []) as [exts [e|]] eqn:H3; [done|].
  apply mappingHeaderExtensions_spec in H3 as [_ H3].
  destruct (H3 eq_refl) as (new & -> & Hexts).
  destruct (mappingEncodings random (Encodings params) n)
    as [encodings n1] eqn:H4.
  apply mappingEncodings_spec in H4 as (-> & Hlen & Hlook).
  intros [= <- <- -> <-]. cbn [MapCodecs MapHeaderExtensions MapEncodings].
  split; [|by repeat split].
  pose proof (mapping_keys_complete _ _ _ _ _ _ _ _ H1 H2) as Hkeys.
  apply mappingMediaLoop_keys in H1 as (Hf & _).
  destruct (Forall2_setParameters_fields _ _ Hf) as (Hpt & _ & Hlen').
  rewrite <- Hpt. unfold mappingCodecs. rewrite map_map.
  set (g := fun i : nat => PayloadType (default zeroCodec (codecs !! i))).
  transitivity (map g (map fst (rangeOrder (map_to_list m2)))).
  { rewrite map_map. erewrite map_ext; [reflexivity|]. by intros [i v]. }
  transitivity (map g (seq 0 (length codecs))).
  { apply Permutation_map.
    change (map fst (rangeOrder (map_to_list m2)))
      with ((rangeOrder (map_to_list m2)).*1).
    by rewrite (Hrange (map_to_list m2)), Hkeys, Hlen'. }
  pose proof (map_lookup_seq
                (fun o => PayloadType (default zeroCodec o)) codecs [])
    as Hseq.
  simpl in Hseq. subst g. by rewrite Hseq.
Qed.

Lemma GetProducerRtpParametersMapping_covers_witness :
  (forall l, exampleOrder l ≡ₚ l) /\
  exists mapping,
    GetProducerRtpParametersMapping exampleNegotiate exampleRandom
      exampleOrder exampleProducer exampleRouterCaps 0 =
      Some (exampleProducer, mapping, None, 1%nat) /\
    map MapPayloadType (MapCodecs mapping) ≡ₚ
      map PayloadType (Codecs exampleProducer).
Proof.
  split; [intros l; reflexivity|].
  eexists. split; [vm_compute; reflexivity|].
  refine (proj1 (GetProducerRtpParametersMapping_covers exampleNegotiate
                   exampleRandom exampleOrder exampleProducer
                   exampleRouterCaps 0 exampleProducer _ 1%nat _ _));
    [intros l; reflexivity|vm_compute; reflexivity].
Defined.

Lemma mappingRtxLoop_total capCodecs all codecs : forall i m err,
  rtxHaveParameters capCodecs ->
  is_Some (mappingRtxLoop capCodecs all i codecs m err).
Proof.
  induction codecs as [|codec rest IH]; intros i m err Hcaps; simpl;
    [by eexists|].
  destruct (isRtxLower (MimeType codec)); simpl; [|by apply IH].
  destruct (Parameters codec) as [p|]; [|by eexists].
  destruct (findPayloadType (Apt p) 0 all); [|by eexists].
  match goal with
  | |- context [findCapRtxCodec ?pt capCodecs] =>
      destruct (findCapRtxCodec_total pt capCodecs Hcaps) as [[r|] ->]
  end; [by apply IH|by eexists].
Qed.

(** X14. Against capabilities in which every RTX codec has a parameter
    block, [GetProducerRtpParametersMapping] returns: it does not stop on
    the dereference of a missing parameter block. *)
Theorem GetProducerRtpParametersMapping_returns
    (negotiate : RtpH264Parameter -> RtpH264Parameter -> option string)
    (random : nat -> Z)
    (rangeOrder :
       list (nat * RtpCodecCapability) -> list (nat * RtpCodecCapability))
    (params : RtpParameters) (caps : RtpCapabilities) (n : nat) :
  rtxHaveParameters (CapCodecs caps) ->
  is_Some (GetProducerRtpParametersMapping negotiate random rangeOrder
             params caps n).
Proof.
  intros Hcaps. unfold GetProducerRtpParametersMapping.
  destruct (mappingMediaLoop negotiate (CapCodecs caps) 0 (Codecs params)
              ∅ None) as [[[codecs m1] err1] ret1].
  destruct ret1; [by eexists|].
  destruct (mappingRtxLoop_total (CapCodecs caps) codecs codecs 0%nat m1
              err1 Hcaps) as [[[m2 err2] ret2] ->].
  destruct ret2; [by eexists|].
  destruct (mappingHeaderExtensions _ _ _) as [exts [e|]]; [by eexists|].
  destruct (mappingEncodings _ _ _). by eexists.
Qed.

Lemma GetProducerRtpParametersMapping_returns_witness :
  is_Some (GetProducerRtpParametersMapping exampleNegotiate exampleRandom
             exampleOrder exampleProducer exampleRouterCaps 0).
Proof.
  apply (GetProducerRtpParametersMapping_returns exampleNegotiate
           exampleRandom exampleOrder exampleProducer exampleRouterCaps 0).
  unfold rtxHaveParameters.
  repeat (constructor; [intros _; discriminate|]). constructor.
Defined.

(** X15. Whenever [GetProducerRtpParametersMapping] returns a type error
    (an invalid codec, an RTX codec without parameters, an RTX codec
    whose apt is the payload type of no codec), the mapping it returns is
    empty and no random number has been drawn. *)
Theorem GetProducerRtpParametersMapping_type_error
    (negotiate : RtpH264Parameter -> RtpH264Parameter -> option string)
    (random : nat -> Z)
    (rangeOrder :
       list (nat * RtpCodecCapability) -> list (nat * RtpCodecCapability))
    (params : RtpParameters) (caps : RtpCapabilities) (n : nat)
    (params' : RtpParameters) (mapping : RtpMappingParameters)
    (err : option error) (n' : nat) :
  GetProducerRtpParametersMapping negotiate random rangeOrder params caps n =
    Some (params', mapping, err, n') ->
  isTypeError err = true ->
  mapping = zeroMapping /\ n' = n.
Proof.
  unfold GetProducerRtpParametersMapping.
  destruct (mappingMediaLoop negotiate (CapCodecs caps) 0 (Codecs params)
              ∅ None) as [[[codecs m1] err1] ret1] eqn:H1.
  pose proof (mappingMediaLoop_error _ _ _ _ _ _ _ _ _ _ H1) as [_ Herr1].
  destruct ret1; [by intros [= _ <- _ <-]|].
  cbn [HeaderExtensions Encodings].
  destruct (mappingRtxLoop (CapCodecs caps) codecs 0 codecs m1 err1)
    as [[[m2 err2] ret2]|] eqn:H2; [|done].
  pose proof (mappingRtxLoop_keys _ _ _ _ _ _ _ _ _ H2) as (_ & _ & _ & Hkeep).
  destruct ret2; [by intros [= _ <- _ <-]|].
  destruct (Hkeep eq_refl) as [-> _].
  specialize (Herr1 eq_refl eq_refl).
  destruct (mappingHeaderExtensions (CapHeaderExtensions caps)
              (HeaderExtensions params) []) as [exts [e|]] eqn:H3.
  - apply mappingHeaderExtensions_spec in H3 as [Hty _].
    intros [= _ _ <- _] Hbad. congruence.
  - destruct (mappingEncodings _ _ _).
    intros [= _ _ <- _] Hbad. congruence.
Qed.

Lemma GetProducerRtpParametersMapping_type_error_witness :
  exists params' mapping err n',
    GetProducerRtpParametersMapping exampleNegotiate exampleRandom
      exampleOrder exampleRtxConsumable exampleRouterCaps 5 =
      Some (params', mapping, err, n') /\
    isTypeError err = true /\
    mapping = zeroMapping /\ n' = 5%nat.
Proof.
  assert (Hrun : GetProducerRtpParametersMapping exampleNegotiate
                   exampleRandom exampleOrder exampleRtxConsumable
                   exampleRouterCaps 5 =
                 Some (exampleRtxConsumable, zeroMapping,
                       Some (TypeError
                               "missing media codec found for RTX PT %d"
                               [ArgD 101]), 5%nat))
    by (vm_compute; reflexivity).
  eexists _, _, _, _. split; [exact Hrun|]. split; [reflexivity|].
  exact (GetProducerRtpParametersMapping_type_error exampleNegotiate
           exampleRandom exampleOrder exampleRtxConsumable exampleRouterCaps
           5 _ _ _ _ Hrun eq_refl).
Defined.

(** ** More on the consumable parameters *)

Lemma consumableCodecsLoop_rtx_blocks caps rtpMapping codecs :
  forall acc out err,
    consumableCodecsLoop caps rtpMapping codecs acc = Some (out, err) ->
    exists blocks,
      out = acc ++ concat blocks /\
      Forall (rtxBlock caps) blocks /\
      (err = None -> length blocks = length (List.filter notRtx codecs)).
Proof.
  induction codecs as [|codec rest IH]; intros acc out err; simpl.
  - intros [= <- <-]. exists []. simpl. by rewrite app_nil_r.
  - destruct (checkCodecParameters codec).
    { intros [= <- <-]. exists []. simpl. by rewrite app_nil_r. }
    unfold notRtx at 1.
    destruct (isRtxLower (MimeType codec)); simpl; [apply IH|].
    set (c := consumableCodecOf _ codec).
    destruct (findCapRtxCodec _ (CapCodecs caps))
      as [[rtx|]|] eqn:Hrtx; [| |done]; intros Hrun;
      apply IH in Hrun as (blocks & -> & Hall & Hlen).
    + apply findCapRtxCodec_found in Hrtx as (Hin & Hmime & Hapt).
      exists ([c; consumableRtxCodecOf rtx] :: blocks). split.
      { simpl. by rewrite <- !app_assoc. }
      split; [|intros He; simpl; by rewrite Hlen].
      constructor; [|exact Hall]. exists c. right.
      exists (consumableRtxCodecOf rtx), rtx. by repeat split.
    + exists ([c] :: blocks). split.
      { simpl. by rewrite <- !app_assoc. }
      split; [|intros He; simpl; by rewrite Hlen].
      constructor; [|exact Hall]. exists c. by left.
Qed.

(** X16. The consumable codec list, also the one returned with an
    error, is made of blocks of one or two codecs: a codec alone, or a
    codec immediately followed by an RTX codec that has the mime type and
    the payload type of a capability RTX codec and whose apt is the
    payload type of the codec before it.  A call without error has one
    block per producer codec that is not RTX. *)
Theorem consumable_rtx_adjacent (kind : string) (params : RtpParameters)
    (caps : RtpCapabilities) (rtpMapping : RtpMappingParameters)
    (out : RtpParameters) (err : option error) :
  GetConsumableRtpParameters kind params caps rtpMapping = Some (out, err) ->
  exists blocks,
    Codecs out = concat blocks /\
    Forall (rtxBlock caps) blocks /\
    (err = None ->
     length blocks = length (List.filter notRtx (Codecs params))).
Proof.
  unfold GetConsumableRtpParameters.
  destruct (consumableCodecsLoop caps rtpMapping (Codecs params) [])
    as [[codecs [e|]]|] eqn:Hloop; [| |done];
    apply consumableCodecsLoop_rtx_blocks in Hloop
      as (blocks & -> & Hall & Hlen).
  - intros [= <- <-]. by exists blocks.
  - destruct (consumableEncodings _ _ _); [|done].
    intros [= <- <-]. by exists blocks.
Qed.

Lemma consumable_rtx_adjacent_witness :
  exists out blocks,
    GetConsumableRtpParameters "video" exampleProducer exampleRouterCaps
      exampleMapping = Some (out, None) /\
    Codecs out = concat blocks /\
    Forall (rtxBlock exampleRouterCaps) blocks.
Proof.
  assert (Hrun : exists out,
             GetConsumableRtpParameters "video" exampleProducer
               exampleRouterCaps exampleMapping = Some (out, None))
    by (eexists; vm_compute; reflexivity).
  destruct Hrun as [out Hrun].
  destruct (consumable_rtx_adjacent "video" exampleProducer exampleRouterCaps
              exampleMapping out None Hrun) as (blocks & Hc & Hb & _).
  by exists out, blocks.
Defined.

Lemma consumableEncodings_fits encodings mapEncodings : forall i,
  (length encodings + i <= length mapEncodings)%nat ->
  consumableEncodings encodings mapEncodings i =
    Some (map consumableEncodingOf
              (take (length encodings) (drop i mapEncodings))).
Proof.
  induction encodings as [|e rest IH]; intros i Hfit; simpl.
  - reflexivity.
  - destruct (lookup_lt_is_Some_2 mapEncodings i ltac:(simpl in Hfit; lia))
      as [entry Hentry].
    rewrite Hentry, (drop_S _ _ _ Hentry). simpl.
    by rewrite IH by (simpl in Hfit; lia).
Qed.

Lemma consumableEncodings_short encodings mapEncodings : forall i,
  encodings <> [] ->
  (length mapEncodings < length encodings + i)%nat ->
  consumableEncodings encodings mapEncodings i = None.
Proof.
  induction encodings as [|e rest IH]; intros i Hne Hshort; [done|].
  simpl. destruct (mapEncodings !! i) as [entry|] eqn:Hentry; [|done].
  apply lookup_lt_Some in Hentry.
  rewrite IH; [done| |simpl in Hshort; lia].
  intros ->. simpl in Hshort. lia.
Qed.

Lemma consumableCodecsLoop_outcome caps rtpMapping codecs : forall acc,
  rtxHaveParameters (CapCodecs caps) ->
  exists out err,
    consumableCodecsLoop caps rtpMapping codecs acc = Some (out, err) /\
    ((err = None /\ Forall validParameters codecs) \/
     (err = Some (TypeError "invalid RTCRtpCodecParameter{s" []) /\
      ~ Forall validParameters codecs)).
Proof.
  intros acc Hcaps. revert acc.
  induction codecs as [|codec rest IH]; intros acc; simpl.
  - eexists _, _. split; [reflexivity|]. by left.
  - destruct (checkCodecParameters codec) as [e|] eqn:Hcheck.
    { eexists _, _. split; [reflexivity|]. right. split.
      - revert Hcheck. unfold checkCodecParameters.
        destruct (_ || _); congruence.
      - intros Hall. apply Forall_cons in Hall as [Hv _].
        unfold validParameters in Hv. congruence. }
    assert (Hnext : forall acc',
      exists out err,
        consumableCodecsLoop caps rtpMapping rest acc' = Some (out, err) /\
        ((err = None /\ Forall validParameters (codec :: rest)) \/
         (err = Some (TypeError "invalid RTCRtpCodecParameter{s" []) /\
          ~ Forall validParameters (codec :: rest)))).
    { intros acc'. destruct (IH acc') as (out & err & Hrun & Hcases).
      exists out, err. split; [exact Hrun|].
      destruct Hcases as [[-> Hall]|[-> Hnot]]; [left|right];
        (split; [reflexivity|]).
      - by constructor.
      - intros Hall. apply Forall_cons in Hall as [_ Hall]. by apply Hnot. }
    destruct (isRtxLower (MimeType codec)); [apply Hnext|].
    match goal with
    | |- context [findCapRtxCodec ?pt (CapCodecs caps)] =>
        destruct (findCapRtxCodec_total pt (CapCodecs caps) Hcaps)
          as [[r|] ->]
    end; apply Hnext.
Qed.

(** X17. Against capabilities in which every RTX codec has a parameter
    block, [GetConsumableRtpParameters] has one of three outcomes.  It
    returns the validation error, with no header extension, no encoding
    and the zero RTCP configuration, exactly when some producer codec has
    an empty mime type or a zero clock rate.  Otherwise it stops on an
    index out of range exactly when the mapping has fewer encoding
    entries than the producer has encodings; and when it has enough, the
    call succeeds and the consumable encodings are built from the first
    entries of the mapping, one per producer encoding, each with the
    mapped ssrc and nothing else. *)
Theorem GetConsumableRtpParameters_outcome (kind : string)
    (params : RtpParameters) (caps : RtpCapabilities)
    (rtpMapping : RtpMappingParameters) :
  rtxHaveParameters (CapCodecs caps) ->
  match GetConsumableRtpParameters kind params caps rtpMapping with
  | None =>
    Forall validParameters (Codecs params) /\
    (length (MapEncodings rtpMapping) < length (Encodings params))%nat
  | Some (out, Some e) =>
    ~ Forall validParameters (Codecs params) /\
    e = TypeError "invalid RTCRtpCodecParameter{s" [] /\
    HeaderExtensions out = [] /\ Encodings out = [] /\ Rtcp out = zeroRtcp
  | Some (out, None) =>
    Forall validParameters (Codecs params) /\
    (length (Encodings params) <= length (MapEncodings rtpMapping))%nat /\
    Encodings out =
      map consumableEncodingOf
          (take (length (Encodings params)) (MapEncodings rtpMapping))
  end.
Proof.
  intros Hcaps. unfold GetConsumableRtpParameters.
  destruct (consumableCodecsLoop_outcome caps rtpMapping (Codecs params) []
              Hcaps) as (codecs & err & -> & [[-> Hall]|[-> Hnot]]);
    [|by repeat split].
  destruct (decide (length (Encodings params)
                    <= length (MapEncodings rtpMapping))%nat) as [Hfit|Hshort].
  - rewrite consumableEncodings_fits by lia. by repeat split.
  - rewrite consumableEncodings_short; [split; [done|lia]| |lia].
    intros Hnil. rewrite Hnil in Hshort. simpl in Hshort. lia.
Qed.

Lemma GetConsumableRtpParameters_outcome_witness :
  match GetConsumableRtpParameters "video" exampleProducer exampleRouterCaps
          exampleMapping with
  | None =>
    Forall validParameters (Codecs exampleProducer) /\
    (length (MapEncodings exampleMapping)
     < length (Encodings exampleProducer))%nat
  | Some (out, Some e) =>
    ~ Forall validParameters (Codecs exampleProducer) /\
    e = TypeError "invalid RTCRtpCodecParameter{s" [] /\
    HeaderExtensions out = [] /\ Encodings out = [] /\ Rtcp out = zeroRtcp
  | Some (out, None) =>
    Forall validParameters (Codecs exampleProducer) /\
    (length (Encodings exampleProducer)
     <= length (MapEncodings exampleMapping))%nat /\
    Encodings out =
      map consumableEncodingOf
          (take (length (Encodings exampleProducer))
                (MapEncodings exampleMapping))
  end.
Proof.
  apply (GetConsumableRtpParameters_outcome "video" exampleProducer
           exampleRouterCaps exampleMapping).
  unfold rtxHaveParameters.
  repeat (constructor; [intros _; discriminate|]). constructor.
Defined.

(** ** The three operations in a row *)

Lemma normalized_rtxHaveParameters capCodecs :
  Forall normalizedCapability capCodecs -> rtxHaveParameters capCodecs.
Proof.
  unfold rtxHaveParameters. intros H.
  eapply Forall_impl; [exact H|].
  intros c (_ & _ & Hp & _) _. exact Hp.
Qed.

Lemma mappingMediaLoop_valid negotiate capCodecs codecs :
  forall i m err codecs' m' err',
    mappingMediaLoop negotiate capCodecs i codecs m err =
      (codecs', m', err', false) ->
    Forall validParameters codecs'.
Proof.
  induction codecs as [|codec rest IH]; intros i m err codecs' m' err';
    simpl.
  - intros [= <- _ _]. constructor.
  - destruct (checkCodecParameters codec) eqn:Hcheck; [done|].
    destruct (isRtxLower (MimeType codec)).
    + destruct (mappingMediaLoop negotiate capCodecs (S i) rest m None)
        as [[[rest' m1] err1] ret1] eqn:Hrec.
      intros [= <- <- <- ->]. constructor; [exact Hcheck|by eapply IH].
    + pose proof (selectMatchedCodecs_snd negotiate codec capCodecs
                    codecMatchStrictAndModify) as [p Hp].
      destruct (selectMatchedCodecs negotiate codec capCodecs
                                    codecMatchStrictAndModify)
        as [[matchedCapCodec matched] codec2].
      simpl in Hp. subst codec2.
      match goal with
      | |- context [mappingMediaLoop negotiate capCodecs (S i) rest ?m0 ?e0] =>
          destruct (mappingMediaLoop negotiate capCodecs (S i) rest m0 e0)
            as [[[rest' m1] err1] ret1] eqn:Hrec
      end.
      intros [= <- <- <- ->]. constructor; [|by eapply IH].
      by destruct (Parameters codec).
Qed.

Lemma GetProducerRtpParametersMapping_success negotiate random rangeOrder
    params caps n params' mapping n' :
  GetProducerRtpParametersMapping negotiate random rangeOrder params caps n =
    Some (params', mapping, None, n') ->
  Forall validParameters (Codecs params') /\
  Encodings params' = Encodings params /\
  length (MapEncodings mapping) = length (Encodings params).
Proof.
  unfold GetProducerRtpParametersMapping.
  destruct (mappingMediaLoop negotiate (CapCodecs caps) 0 (Codecs params)
              ∅ None) as [[[codecs m1] err1] ret1] eqn:H1.
  pose proof (mappingMediaLoop_error _ _ _ _ _ _ _ _ _ _ H1) as [Hret1 _].
  destruct ret1; [intros [= _ _ -> _]; by destruct Hret1|].
  apply mappingMediaLoop_valid in H1.
  cbn [HeaderExtensions Encodings].
  destruct (mappingRtxLoop (CapCodecs caps) codecs 0 codecs m1 err1)
    as [[[m2 err2] ret2]|] eqn:H2; [|done].
  pose proof (mappingRtxLoop_keys _ _ _ _ _ _ _ _ _ H2) as (_ & _ & Hret2 & _).
  destruct ret2; [intros [= _ _ -> _]; by destruct Hret2|].
  destruct (mappingHeaderExtensions _ _ _) as [exts [e|]]; [done|].
  destruct (mappingEncodings random (Encodings params) n)
    as [encodings n1] eqn:H4.
  apply mappingEncodings_spec in H4 as (_ & Hlen & _).
  by intros [= <- <- _ _].
Qed.

(** X18. With the capabilities the capability builder returns, the two
    operations that follow never stop on a missing parameter block or on
    an index out of range: [GetProducerRtpParametersMapping] returns for
    every producer, and when it returns no error,
    [GetConsumableRtpParameters] on the producer parameters and the
    mapping it returned succeeds, for every kind. *)
Theorem router_capabilities_never_stop
    (negotiate : RtpH264Parameter -> RtpH264Parameter -> option string)
    (random : nat -> Z)
    (rangeOrder :
       list (nat * RtpCodecCapability) -> list (nat * RtpCodecCapability))
    (supported : RtpCapabilities) (mediaCodecs : list RtpCodecCapability)
    (kind : string) (params : RtpParameters) (n : nat) :
  let caps :=
    fst (GenerateRouterRtpCapabilities negotiate supported mediaCodecs) in
  is_Some (GetProducerRtpParametersMapping negotiate random rangeOrder
             params caps n) /\
  forall params' mapping n',
    GetProducerRtpParametersMapping negotiate random rangeOrder params caps n
      = Some (params', mapping, None, n') ->
    exists out,
      GetConsumableRtpParameters kind params' caps mapping = Some (out, None).
Proof.
  intros caps.
  assert (Hcaps : rtxHaveParameters (CapCodecs caps)).
  { apply normalized_rtxHaveParameters. subst caps.
    unfold GenerateRouterRtpCapabilities.
    destruct (length mediaCodecs =? 0)%nat; [constructor|].
    by apply generateLoop_normalized. }
  split.
  - unfold GetProducerRtpParametersMapping.
    destruct (mappingMediaLoop negotiate (CapCodecs caps) 0 (Codecs params)
                ∅ None) as [[[codecs m1] err1] ret1].
    destruct ret1; [by eexists|].
    destruct (mappingRtxLoop_total (CapCodecs caps) codecs codecs 0%nat m1
                err1 Hcaps) as [[[m2 err2] ret2] ->].
    destruct ret2; [by eexists|].
    destruct (mappingHeaderExtensions _ _ _) as [exts [e|]]; [by eexists|].
    destruct (mappingEncodings _ _ _). by eexists.
  - intros params' mapping n' Hmap.
    apply GetProducerRtpParametersMapping_success in Hmap
      as (Hvalid & Henc & Hlen).
    unfold GetConsumableRtpParameters.
    destruct (consumableCodecsLoop_outcome caps mapping (Codecs params') []
                Hcaps) as (codecs & err & -> & [[-> _]|[_ Hnot]]);
      [|by destruct Hnot].
    rewrite consumableEncodings_fits by (rewrite Henc; lia).
    by eexists.
Qed.

Lemma router_capabilities_never_stop_witness :
  exists params' mapping n',
    GetProducerRtpParametersMapping exampleNegotiate exampleRandom
      exampleOrder exampleVideoProducer exampleRouterCaps 0 =
      Some (params', mapping, None, n') /\
    exists out,
      GetConsumableRtpParameters "video" params' exampleRouterCaps mapping =
        Some (out, None).
Proof.
  eexists _, _, _. split; [vm_compute; reflexivity|].
  refine (proj2 (router_capabilities_never_stop exampleNegotiate
                   exampleRandom exampleOrder exampleSupported
                   [vp8Configured; opusConfigured] "video"
                   exampleVideoProducer 0%nat) _ _ 1%nat _).
  vm_compute; reflexivity.
Defined.
